(** * LabSyncOura: the health-metric model and its report generator

    A shallow embedding of [health_lp.py] (classes [HealthMetric],
    [SleepData], [HealthLP]) and of [ReportGenerator.generate_report] from
    [report_generator.py], followed by the properties of the model.

    Layout:
    - [Number]: the arithmetic the Python code computes with; its instance
      for the code is binary64, Python's [float];
    - the model: records for the dataclasses, a state monad over [HealthLP]
      for the methods that read or write [self];
    - rounding to nearest in binary64, as far as the sums and the quotient
      of the model need it;
    - the properties. *)

From Stdlib Require Import ZArith QArith Qpower Qminmax Lqa Lia Floats.
From Stdlib Require Import Sorting.Sorted Sorting.Permutation.
From stdpp Require Import base option list strings gmap.

Set Default Proof Using "Type".
Local Open Scope Z_scope.

(* ===================================================================== *)
(** ** Numbers                                                            *)
(* ===================================================================== *)

(** The arithmetic the code performs on metric values, thresholds and
    sleep durations: [+], [-], [*], [/], [<] (and [>], its mirror image),
    [==], and decimal literals.  The signatures of [health_lp.py] declare
    these numbers as [float], and [float_Number] below is the instance the
    code runs with; an integer argument (those of [main.py] are all below
    2^52) is read as the [float] of the same value.  The model is written
    once over the interface, so that the properties that do not depend on
    the arithmetic are proved without it. *)
Class Number (F : Type) := {
  lit  : Q -> F;            (* a decimal literal of the source text *)
  nadd : F -> F -> F;
  nsub : F -> F -> F;
  nmul : F -> F -> F;
  ndiv : F -> F -> F;
  nltb : F -> F -> bool;
  neqb : F -> F -> bool
}.

(** [a > b] is [b < a]. *)
Definition ngtb {F} `{Number F} (a b : F) : bool := nltb b a.

(** Python's two-argument [min] and [max] return their first argument
    unless the second is strictly smaller (resp. strictly larger). *)
Definition py_min {F} `{Number F} (a b : F) : F := if nltb b a then b else a.
Definition py_max {F} `{Number F} (a b : F) : F := if ngtb b a then b else a.

(** The rationals: arithmetic without rounding, overflow or NaN.  This is
    not what Python computes, neither on [float] nor on [int] (whose [/]
    rounds to a [float] and can raise); it is kept as a reference against
    which a result of the binary64 instance can be read. *)
Definition Qltb (a b : Q) : bool := negb (Qle_bool b a).

#[export] Instance Q_Number : Number Q := {|
  lit := fun q => q;
  nadd := Qplus; nsub := Qminus; nmul := Qmult; ndiv := Qdiv;
  nltb := Qltb; neqb := Qeq_bool
|}.

(** Python [float]: IEEE 754 binary64, round to nearest even.  A decimal
    literal with numerator and denominator below 2^53 is the correctly
    rounded quotient of the two integers, which is how it is read here.
    Python's [/] raises [ZeroDivisionError] on a zero divisor where
    IEEE 754 returns an infinity or a NaN; the code divides only by a
    difference of thresholds under [upper_threshold > lower_threshold] and
    by a total weight that is not zero, and neither divisor is zero
    ([normalized_divisor_not_zero] below). *)
Definition float_lit (q : Q) : float :=
  PrimFloat.div (PrimFloat.of_uint63 (Uint63.of_Z (Qnum q)))
                (PrimFloat.of_uint63 (Uint63.of_Z (Z.pos (Qden q)))).

#[export] Instance float_Number : Number float := {|
  lit := float_lit;
  nadd := PrimFloat.add; nsub := PrimFloat.sub;
  nmul := PrimFloat.mul; ndiv := PrimFloat.div;
  nltb := PrimFloat.ltb; neqb := PrimFloat.eqb
|}.

(* ===================================================================== *)
(** ** Dates                                                              *)
(* ===================================================================== *)

(** A naive [datetime] is a point on a discrete time line: the number of
    microseconds since the first representable instant.  Comparison is
    the order of [Z]; [(b - a).days] is the floor of the difference in
    days ([timedelta] normalises so that [days] carries the sign). *)
Definition datetime := Z.

Definition MICROSECONDS_PER_DAY : Z := 86400000000.

Definition timedelta_days (b a : datetime) : Z := (b - a) / MICROSECONDS_PER_DAY.

(** [timedelta(days=n)], as an offset on the time line. *)
Definition timedelta (n : Z) : Z := n * MICROSECONDS_PER_DAY.

(* ===================================================================== *)
(** ** The model: [health_lp.py]                                          *)
(* ===================================================================== *)

Section Model.
Context {F : Type} `{Number F}.

(** [@dataclass class HealthMetric] *)
Record HealthMetric := {
  name : string;
  value : F;
  lower_threshold : F;
  upper_threshold : F;
  category : string;
  is_flagged : bool
}.

(** The right-hand side of the assignment in [check_flag]. *)
Definition out_of_range (m : HealthMetric) : bool :=
  nltb (value m) (lower_threshold m) || ngtb (value m) (upper_threshold m).

(** [HealthMetric.check_flag]: stores the flag in the object and returns
    it; the updated object is the second component. *)
Definition check_flag (self : HealthMetric) : bool * HealthMetric :=
  let flag := out_of_range self in
  (flag, {| name := name self; value := value self;
            lower_threshold := lower_threshold self;
            upper_threshold := upper_threshold self;
            category := category self; is_flagged := flag |}).

(** [@dataclass class SleepData] *)
Record SleepData := {
  date : datetime;
  sleep_duration_hours : F;
  sleep_quality_score : F;
  sleep_efficiency : F
}.

(** The attributes of a [HealthLP] object. *)
Record HealthLP := {
  target_sleep_hours : F;
  metrics : list HealthMetric;
  sleep_history : list SleepData
}.

Definition set_metrics (self : HealthLP) (ms : list HealthMetric) : HealthLP :=
  {| target_sleep_hours := target_sleep_hours self;
     metrics := ms;
     sleep_history := sleep_history self |}.

Definition set_sleep_history (self : HealthLP) (h : list SleepData) : HealthLP :=
  {| target_sleep_hours := target_sleep_hours self;
     metrics := metrics self;
     sleep_history := h |}.

(** Methods are state transformers on the object they are called on. *)
Definition M (A : Type) : Type := HealthLP -> A * HealthLP.

Definition ret {A} (a : A) : M A := fun self => (a, self).
Definition bind {A B} (m : M A) (k : A -> M B) : M B :=
  fun self => let (a, self') := m self in k a self'.
Definition gets {A} (f : HealthLP -> A) : M A := fun self => (f self, self).
Definition modify (f : HealthLP -> HealthLP) : M unit := fun self => (tt, f self).

Definition result {A} (m : M A) (self : HealthLP) : A := fst (m self).
Definition after {A} (m : M A) (self : HealthLP) : HealthLP := snd (m self).

End Model.

Arguments HealthMetric F : clear implicits.
Arguments SleepData F : clear implicits.
Arguments HealthLP F : clear implicits.
Arguments M F A : clear implicits.

Declare Scope py_scope.
Delimit Scope py_scope with py.
Notation "x <- m ;; k" := (bind m (fun x => k))
  (at level 20, m at level 99, k at level 200, only parsing) : py_scope.
Notation "m ;; k" := (bind m (fun _ => k))
  (at level 100, k at level 200, only parsing, right associativity) : py_scope.

Section Methods.
Context {F : Type} `{Number F}.
Local Open Scope py_scope.

(** [HealthLP.__init__] *)
Definition HealthLP_init (target_sleep_hours : F) : HealthLP F :=
  {| target_sleep_hours := target_sleep_hours; metrics := []; sleep_history := [] |}.

Definition default_target_sleep_hours : F := lit 8.0.

(** [HealthLP.add_metric] *)
Definition add_metric (name : string) (value lower_threshold upper_threshold : F)
    (category : string) : M F (HealthMetric F) :=
  let metric := {| name := name; value := value;
                   lower_threshold := lower_threshold;
                   upper_threshold := upper_threshold;
                   category := category; is_flagged := false |} in
  let metric := snd (check_flag metric) in
  modify (fun self => set_metrics self (metrics self ++ [metric])) ;;
  ret metric.

(** [list.sort(key=lambda x: x.date)]: Python's sort is stable, so the
    result is fixed by the input: the records in ascending date order,
    records of equal date in their order of arrival.  It is written here
    as the insertion sort that has this result. *)
Fixpoint insert_by_date (x : SleepData F) (l : list (SleepData F)) : list (SleepData F) :=
  match l with
  | [] => [x]
  | y :: l' => if (date x <=? date y)%Z then x :: y :: l' else y :: insert_by_date x l'
  end.

Definition sort_by_date (l : list (SleepData F)) : list (SleepData F) :=
  fold_right insert_by_date [] l.

Definition default_sleep_quality_score : F := lit 70.0.
Definition default_sleep_efficiency : F := lit 85.0.

(** [HealthLP.add_sleep_data] *)
Definition add_sleep_data (date : datetime)
    (sleep_duration_hours sleep_quality_score sleep_efficiency : F) : M F unit :=
  let sleep_data := {| date := date;
                       sleep_duration_hours := sleep_duration_hours;
                       sleep_quality_score := sleep_quality_score;
                       sleep_efficiency := sleep_efficiency |} in
  modify (fun self => set_sleep_history self (sleep_history self ++ [sleep_data])) ;;
  modify (fun self => set_sleep_history self (sort_by_date (sleep_history self))).

(** The body of the [for] loop of [calculate_sleep_debt]. *)
Definition debt_step (target : F) (total_debt : F) (sleep_data : SleepData F) : F :=
  let deficit := nsub target (sleep_duration_hours sleep_data) in
  if ngtb deficit (lit 0) then nadd total_debt deficit else total_debt.

(** [HealthLP.calculate_sleep_debt] *)
Definition calculate_sleep_debt (start_date end_date : datetime) : M F F :=
  history <- gets sleep_history ;;
  target <- gets target_sleep_hours ;;
  let total_debt := lit 0.0 in
  let period_sleep :=
    filter (fun s => start_date <= date s <= end_date) history in
  ret (fold_left (debt_step target) period_sleep total_debt).

Definition default_max_acceptable_debt : F := lit 0.99.

(** [HealthLP.get_sleep_debt_metric] *)
Definition get_sleep_debt_metric (start_date end_date : datetime)
    (max_acceptable_debt : F) : M F (HealthMetric F) :=
  sleep_debt <- calculate_sleep_debt start_date end_date ;;
  let metric := {| name := "Sleep Debt"; value := sleep_debt;
                   lower_threshold := lit 0.0;
                   upper_threshold := max_acceptable_debt;
                   category := "Sleep"; is_flagged := false |} in
  let metric := snd (check_flag metric) in
  ret metric.

(** A [dict] from category to the list of its flagged metrics.  Python
    dictionaries iterate in insertion order, which the report shows, so
    the keys are kept in a list. *)
Definition flagged_dict : Type := list (string * list (HealthMetric F)).

(** [if k not in d: d[k] = []] followed by [d[k].append(m)]. *)
Fixpoint dict_append (k : string) (m : HealthMetric F) (d : flagged_dict) : flagged_dict :=
  match d with
  | [] => [(k, [m])]
  | (k', ms) :: d' =>
      if decide (k' = k) then (k', ms ++ [m]) :: d' else (k', ms) :: dict_append k m d'
  end.

(** [HealthLP.evaluate_all_metrics] *)
Definition evaluate_all_metrics : M F flagged_dict :=
  ms <- gets metrics ;;
  ret (fold_left
         (fun flagged_by_category metric =>
            if is_flagged metric
            then dict_append (category metric) metric flagged_by_category
            else flagged_by_category)
         ms []).

(** [HealthLP.get_total_flagged_count] *)
Definition get_total_flagged_count : M F nat :=
  ms <- gets metrics ;;
  ret (length (filter (fun m => is_flagged m = true) ms)).

(** The table [category_weights] of [optimize_health_score]. *)
Definition category_weights : gmap string F :=
  {[ "Sleep" := lit 0.3; "Cardiovascular" := lit 0.3; "Activity" := lit 0.4 ]}.

(** [max(0.0, min(1.0, normalized))] on the quotient above it.  The code
    evaluates it only under [upper_threshold > lower_threshold], where the
    divisor is not zero (Python would raise [ZeroDivisionError] on a zero
    divisor); likewise the final quotient of [optimize_health_score] is
    taken only when [total_weight == 0] fails. *)
Definition clamped_normalized (metric : HealthMetric F) : F :=
  let normalized :=
    ndiv (nsub (value metric) (lower_threshold metric))
         (nsub (upper_threshold metric) (lower_threshold metric)) in
  py_max (lit 0.0) (py_min (lit 1.0) normalized).

(** The value of [score] at the end of one iteration of the loop of
    [optimize_health_score]. *)
Definition metric_score (metric : HealthMetric F) : F :=
  if ngtb (upper_threshold metric) (lower_threshold metric) then
    let normalized := clamped_normalized metric in
    if is_flagged metric
    then (if nltb normalized (lit 0.5) then lit 0.3 else lit 0.7)
    else normalized
  else
    if negb (is_flagged metric) then lit 1.0 else lit 0.5.

Definition metric_weight (metric : HealthMetric F) : F :=
  default (lit 0.1) (category_weights !! category metric).

(** One iteration: the pair is [(total_score, total_weight)]. *)
Definition score_step (acc : F * F) (metric : HealthMetric F) : F * F :=
  let weight := metric_weight metric in
  let score := metric_score metric in
  (nadd (fst acc) (nmul score weight), nadd (snd acc) weight).

(** [HealthLP.optimize_health_score] *)
Definition optimize_health_score : M F F :=
  ms <- gets metrics ;;
  match ms with
  | [] => ret (lit 100.0)
  | _ =>
      let '(total_score, total_weight) := fold_left score_step ms (lit 0.0, lit 0.0) in
      if neqb total_weight (lit 0) then ret (lit 100.0)
      else ret (nmul (ndiv total_score total_weight) (lit 100.0))
  end.

(** [HealthLP.reset] *)
Definition reset : M F unit :=
  modify (fun self => set_metrics self []) ;;
  modify (fun self => set_sleep_history self []).

(* --------------------------------------------------------------------- *)
(** *** [report_generator.py]                                             *)
(* --------------------------------------------------------------------- *)

(** The nested dictionaries of the report. *)
Record Period := {
  p_start : datetime;
  p_end : datetime;
  p_days : Z
}.

Record SleepDebtInfo := {
  sd_value : F;
  sd_is_flagged : bool;
  sd_target : F
}.

Record Report := {
  patient_email : string;
  report_date : datetime;
  period : Period;
  reference_period : option Period;
  total_flagged : nat;
  flagged_by_category : flagged_dict;
  health_score : F;
  sleep_debt : SleepDebtInfo
}.

(** The [next(...)] expression: the index of the first metric named
    "Sleep Debt", or [None]. *)
Definition existing_sleep_debt_idx (ms : list (HealthMetric F)) : option nat :=
  fst <$> list_find (fun m => name m = "Sleep Debt") ms.

(** [generate_report], lines 61-71: update the stored "Sleep Debt"
    metric, or add it when there is none. *)
Definition upsert_sleep_debt (sleep_debt_metric : HealthMetric F) : M F unit :=
  idx <- gets (fun lp_model => existing_sleep_debt_idx (metrics lp_model)) ;;
  match idx with
  | Some i =>
      modify (fun lp_model =>
                set_metrics lp_model (<[i := sleep_debt_metric]> (metrics lp_model)))
  | None =>
      modify (fun lp_model =>
                set_metrics lp_model (metrics lp_model ++ [sleep_debt_metric]))
  end.

(** [generate_report], lines 73-107: read the model and build the report. *)
Definition build_report (patient_email : string)
    (report_date period_start period_end : datetime)
    (reference_start reference_end : option datetime)
    (period_days : Z) (sleep_debt_metric : HealthMetric F) : M F Report :=
  flagged <- evaluate_all_metrics ;;
  total <- get_total_flagged_count ;;
  let reference_info :=
    match reference_start, reference_end with
    | Some rs, Some re =>
        Some {| p_start := rs; p_end := re; p_days := timedelta_days re rs + 1 |}
    | _, _ => None
    end in
  score <- optimize_health_score ;;
  target <- gets target_sleep_hours ;;
  ret {| patient_email := patient_email;
         report_date := report_date;
         period := {| p_start := period_start; p_end := period_end;
                      p_days := period_days |};
         reference_period := reference_info;
         total_flagged := total;
         flagged_by_category := flagged;
         health_score := score;
         sleep_debt := {| sd_value := value sleep_debt_metric;
                          sd_is_flagged := is_flagged sleep_debt_metric;
                          sd_target := target |} |}.

(** [ReportGenerator.generate_report], on the model [self.lp_model]. *)
Definition generate_report (patient_email : string)
    (report_date period_start period_end : datetime)
    (reference_start reference_end : option datetime) : M F Report :=
  let period_days := timedelta_days period_end period_start + 1 in
  sleep_debt_metric <-
    get_sleep_debt_metric period_start period_end default_max_acceptable_debt ;;
  upsert_sleep_debt sleep_debt_metric ;;
  build_report patient_email report_date period_start period_end
               reference_start reference_end period_days sleep_debt_metric.

(* --------------------------------------------------------------------- *)
(** *** The public interface as a transition system                       *)
(* --------------------------------------------------------------------- *)

(** One call on the model, by the caller or through the report generator. *)
Inductive Call :=
| CallAddMetric (name : string) (value lower upper : F) (category : string)
| CallAddSleepData (date : datetime) (duration quality efficiency : F)
| CallCalculateSleepDebt (start_date end_date : datetime)
| CallGetSleepDebtMetric (start_date end_date : datetime) (max_acceptable_debt : F)
| CallEvaluateAllMetrics
| CallGetTotalFlaggedCount
| CallOptimizeHealthScore
| CallReset
| CallGenerateReport (patient_email : string)
    (report_date period_start period_end : datetime)
    (reference_start reference_end : option datetime).

(** The state the call leaves behind. *)
Definition exec (c : Call) (self : HealthLP F) : HealthLP F :=
  match c with
  | CallAddMetric n v lo up cat => after (add_metric n v lo up cat) self
  | CallAddSleepData d dur q e => after (add_sleep_data d dur q e) self
  | CallCalculateSleepDebt s e => after (calculate_sleep_debt s e) self
  | CallGetSleepDebtMetric s e mad => after (get_sleep_debt_metric s e mad) self
  | CallEvaluateAllMetrics => after evaluate_all_metrics self
  | CallGetTotalFlaggedCount => after get_total_flagged_count self
  | CallOptimizeHealthScore => after optimize_health_score self
  | CallReset => after reset self
  | CallGenerateReport pe rd ps pend rs re =>
      after (generate_report pe rd ps pend rs re) self
  end.

Definition exec_all (cs : list Call) (self : HealthLP F) : HealthLP F :=
  fold_left (fun s c => exec c s) cs self.

End Methods.

Arguments Call F : clear implicits.
Arguments Report F : clear implicits.
Arguments flagged_dict F : clear implicits.

(* ===================================================================== *)
(** ** What the properties are stated with                                *)
(* ===================================================================== *)

Section Specification.
Context {F : Type} `{Number F}.

(** The flag of a metric agrees with its value and thresholds. *)
Definition flag_consistent (m : HealthMetric F) : Prop :=
  is_flagged m
  = (nltb (value m) (lower_threshold m) || ngtb (value m) (upper_threshold m)).

(** No stored metric carries a stale flag. *)
Definition flags_fresh (self : HealthLP F) : Prop :=
  Forall flag_consistent (metrics self).

(** Ascending by date, duplicates allowed. *)
Definition date_sorted (l : list (SleepData F)) : Prop :=
  StronglySorted (fun a b => date a <= date b) l.

Definition is_sleep_debt (m : HealthMetric F) : Prop := name m = "Sleep Debt".

#[export] Instance is_sleep_debt_dec (m : HealthMetric F) : Decision (is_sleep_debt m) :=
  decide (name m = "Sleep Debt").

(** The metrics named "Sleep Debt", and all the others, in store order. *)
Definition sleep_debt_metrics (ms : list (HealthMetric F)) : list (HealthMetric F) :=
  filter is_sleep_debt ms.

Definition other_metrics (ms : list (HealthMetric F)) : list (HealthMetric F) :=
  filter (fun m => ~ is_sleep_debt m) ms.

(** The update of the metric list that [generate_report] performs. *)
Definition upsert (ms : list (HealthMetric F)) (m : HealthMetric F) : list (HealthMetric F) :=
  match existing_sleep_debt_idx ms with
  | Some i => <[i := m]> ms
  | None => ms ++ [m]
  end.

(** The records of the history that a period selects. *)
Definition in_period (start_date end_date : datetime) (l : list (SleepData F)) :
    list (SleepData F) :=
  filter (fun s => start_date <= date s <= end_date) l.

(** A value of the closed unit interval, said with the comparison the
    code itself uses: an end point, or strictly between the two. *)
Definition in_unit_interval (x : F) : Prop :=
  x = lit 0.0 \/ x = lit 1.0 \/ (nltb (lit 0.0) x = true /\ nltb x (lit 1.0) = true).

(** What one record adds to the debt, as the specification words it:
    [max(0, target_sleep_hours - duration_hours)]. *)
Definition deficit (target : F) (s : SleepData F) : F :=
  py_max (lit 0) (nsub target (sleep_duration_hours s)).

(** A sum accumulated from [0.0], one term after the other. *)
Definition running_sum (l : list F) : F := fold_left nadd l (lit 0.0).

(** The sleep debt as the specification words it: the sum over the
    records of the period of their deficits, in the order of the
    history. *)
Definition sleep_debt_spec (self : HealthLP F) (start_date end_date : datetime) : F :=
  running_sum (map (deficit (target_sleep_hours self))
                   (in_period start_date end_date (sleep_history self))).

End Specification.

(* --------------------------------------------------------------------- *)
(** *** Concrete models                                                   *)
(* --------------------------------------------------------------------- *)

Section Scenario.
Context {F : Type} `{Number F}.
Local Open Scope py_scope.

(** The seven nights of [main.py]: day [i] of the period, 7.857 hours,
    quality [70.0 + (i % 2) * 10]. *)
Definition add_night (i : Z) : M F unit :=
  add_sleep_data (timedelta i) (lit 7.857)
                 (if Z.even i then lit 70.0 else lit 80.0)
                 default_sleep_efficiency.

Definition week_of_short_nights : HealthLP F :=
  fold_left (fun self i => after (add_night i) self)
            [0; 1; 2; 3; 4; 5; 6] (HealthLP_init (lit 8.0)).

(** One night of exactly seven hours against a target of eight. *)
Definition one_hour_short : HealthLP F :=
  after (add_sleep_data (timedelta 0) (lit 7.0)
                        default_sleep_quality_score default_sleep_efficiency)
        (HealthLP_init (lit 8.0)).

(** Some metrics of [main.py] on top of the seven nights. *)
Definition sample_model : HealthLP F :=
  after (add_metric "Resting Heart Rate" (lit 72) (lit 60) (lit 100) "Cardiovascular" ;;
         add_metric "Steps" (lit 8500) (lit 10000) (lit 20000) "Activity" ;;
         add_metric "Sleep Duration" (lit 6.8) (lit 7.0) (lit 9.0) "Sleep")
        week_of_short_nights.

(** The step count of [main.py], as [add_metric] returns it. *)
Definition steps_metric : HealthMetric F :=
  result (add_metric "Steps" (lit 8500) (lit 10000) (lit 20000) "Activity")
         (HealthLP_init (lit 8.0)).

(** A metric whose range is degenerate ([lower = upper]) and whose value
    lies below it, as [add_metric] returns it, and the model that holds
    it. *)
Definition degenerate_metric : HealthMetric F :=
  result (add_metric "Glucose" (lit 5) (lit 10) (lit 10) "Sleep")
         (HealthLP_init (lit 8.0)).

Definition degenerate_model : HealthLP F :=
  after (add_metric "Glucose" (lit 5) (lit 10) (lit 10) "Sleep")
        (HealthLP_init (lit 8.0)).

(** The arguments of the report of [main.py], without reference period. *)
Definition sample_report : M F (Report F) :=
  generate_report "example@email.com" (timedelta 16) (timedelta 0) (timedelta 6)
                  None None.

End Scenario.

(* --------------------------------------------------------------------- *)
(** *** What the further properties are stated with                       *)
(* --------------------------------------------------------------------- *)

Section Vocabulary.
Context {F : Type} `{Number F}.

(** [d.get(k)] on the dictionary of flagged metrics. *)
Fixpoint dict_get (k : string) (d : flagged_dict F) : option (list (HealthMetric F)) :=
  match d with
  | [] => None
  | (k', ms) :: d' => if decide (k' = k) then Some ms else dict_get k d'
  end.

(** The keys of the dictionary, in iteration order. *)
Definition dict_keys (d : flagged_dict F) : list string := map fst d.

(** The number of metrics the dictionary lists, all groups together. *)
Definition dict_size (d : flagged_dict F) : nat :=
  sum_list (map (fun kv => length (snd kv)) d).

(** The flagged metrics of a store, and those of one category, in store
    order. *)
Definition flagged_metrics (ms : list (HealthMetric F)) : list (HealthMetric F) :=
  filter (fun m => is_flagged m = true) ms.

Definition flagged_in (k : string) (ms : list (HealthMetric F)) : list (HealthMetric F) :=
  filter (fun m => is_flagged m = true /\ category m = k) ms.

(** The distinct elements of a list, each at its first occurrence. *)
Fixpoint first_seen (l : list string) : list string :=
  match l with
  | [] => []
  | x :: l' => x :: filter (fun y => y <> x) (first_seen l')
  end.

(** The records of a history up to a date, and after it. *)
Definition up_to (d : datetime) (l : list (SleepData F)) : list (SleepData F) :=
  filter (fun s => date s <= d) l.

Definition later_than (d : datetime) (l : list (SleepData F)) : list (SleepData F) :=
  filter (fun s => d < date s) l.

(** The arguments of one [generate_report] call. *)
Record ReportArgs := {
  arg_patient_email : string;
  arg_report_date : datetime;
  arg_period_start : datetime;
  arg_period_end : datetime;
  arg_reference_start : option datetime;
  arg_reference_end : option datetime
}.

Definition report_call (a : ReportArgs) : Call F :=
  CallGenerateReport (arg_patient_email a) (arg_report_date a)
                     (arg_period_start a) (arg_period_end a)
                     (arg_reference_start a) (arg_reference_end a).

End Vocabulary.

(* ===================================================================== *)
(** ** Rounding in binary64                                               *)
(* ===================================================================== *)

(** [PrimFloat] comes with its specification [SpecFloat]: every operation
    is the function of the same name on [spec_float], which rounds with
    [binary_round_aux].  What follows says in rationals what that rounding
    computes. *)

(** Powers of two. *)
Definition bpow (e : Z) : Q := Qpower 2 e.

Abbreviation rne := round_nearest_even.
Abbreviation fexp := (SpecFloat.fexp prec emax).
Abbreviation bra := (binary_round_aux prec emax).

(** The rational [q] lies at location [l] in the interval from [m] to
    [m + 1]: on [m], or strictly inside and below, on or above the
    midpoint. *)
Definition inb (m : Z) (l : location) (q : Q) : Prop :=
  match l with
  | loc_Exact => (q == inject_Z m)%Q
  | loc_Inexact c =>
      ((inject_Z m < q)%Q /\ (q < inject_Z m + 1)%Q) /\ Qcompare q (inject_Z m + (1#2)) = c
  end.

(** [y] is [x > 0] rounded to nearest, ties to even, at the precision of
    the binade of [x], without a bound on the exponent from above. *)
Definition rounds_to (x y : Q) : Prop :=
  exists k m l,
    ((bpow (k - 1) <= x)%Q /\ (x < bpow k)%Q)
    /\ inb m l (x / bpow (fexp k))
    /\ (y == inject_Z (rne m l) * bpow (fexp k))%Q.

(** What [binary_round_aux] returns, against the rounded value [y]: an
    infinity stands for a value that does not fit. *)
Definition SFrounded (sx : bool) (R : spec_float) (y : Q) : Prop :=
  match R with
  | S754_zero s => s = sx /\ (y == 0)%Q
  | S754_finite s m e => s = sx /\ (y == inject_Z (Z.pos m) * bpow e)%Q
  | S754_infinity s => s = sx /\ (bpow emax <= y)%Q
  | S754_nan => False
  end.

(** The value of a finite number; zeros, infinities and NaN read 0. *)
Definition SFval (f : spec_float) : Q :=
  match f with
  | S754_finite s m e =>
      (if s then - inject_Z (Z.pos m) else inject_Z (Z.pos m)) * bpow e
  | _ => 0
  end.

(** [+0.0] and the finite numbers above it. *)
Definition SFnonneg (f : spec_float) : Prop :=
  match f with
  | S754_zero false | S754_finite false _ _ => True
  | _ => False
  end.

(** The numbers above zero, [+inf] included. *)
Definition SFpositive (f : spec_float) : Prop :=
  match f with
  | S754_finite false _ _ | S754_infinity false => True
  | _ => False
  end.

(** The comparison [SFcompare] makes of two finite numbers of the same
    sign. *)
Definition cmp_mag (m1 : positive) (e1 : Z) (m2 : positive) (e2 : Z) : comparison :=
  match Z.compare e1 e2 with
  | Lt => Lt
  | Gt => Gt
  | Eq => Pos.compare_cont Eq m1 m2
  end.

(** [R] is the correctly rounded [q >= 0]. *)
Definition Rnd (q : Q) (R : spec_float) : Prop :=
  ((q == 0)%Q /\ R = S754_zero false)
  \/ ((0 < q)%Q /\ exists y, rounds_to q y /\ SFrounded false R y).

(** The largest finite number. *)
Definition max_mantissa : positive := Eval cbv in Z.to_pos (2 ^ 53 - 1).
Definition SFmax : spec_float := S754_finite false max_mantissa 971.

(** NaN, the one number that compares with nothing. *)
Definition SFnan (x : spec_float) : bool :=
  match x with S754_nan => true | _ => false end.

(** The value of a [float], and the [float]s that are [+0.0] or finite
    and above it. *)
Definition fval (x : float) : Q := SFval (Prim2SF x).
Definition fnonneg (x : float) : Prop := SFnonneg (Prim2SF x).

(** The class of the running total of [calculate_sleep_debt]: [+0.0], a
    finite number above it, or [+inf]. *)
Definition fnonneg_inf (x : float) : Prop :=
  SFnonneg (Prim2SF x) \/ Prim2SF x = S754_infinity false.

(** The loop of [optimize_health_score]: both totals stay finite and
    nonnegative, and the score total never exceeds the weight total. *)
Definition totals_ok (acc : float * float) : Prop :=
  fnonneg (fst acc) /\ fnonneg (snd acc) /\ (fval (fst acc) <= fval (snd acc))%Q.

(* ===================================================================== *)
(** ** Properties that hold for every number type                         *)
(* ===================================================================== *)

(** Runs the monadic plumbing of a method body. *)
Ltac run_method :=
  unfold after, result, bind, ret, gets, modify; cbn [fst snd].

Create Rewrite HintDb model.

Section Frames.
Context {F : Type} `{Number F}.
Implicit Types (self : HealthLP F) (m : HealthMetric F).

(** *** Sequencing *)

Lemma after_bind {A B} (c : M F A) (k : A -> M F B) self :
  after (bind c k) self = after (k (result c self)) (after c self).
Proof. run_method. destruct (c self); reflexivity. Qed.

Lemma result_bind {A B} (c : M F A) (k : A -> M F B) self :
  result (bind c k) self = result (k (result c self)) (after c self).
Proof. run_method. destruct (c self); reflexivity. Qed.

Lemma after_ret {A} (a : A) self : after (ret a) self = self.
Proof. reflexivity. Qed.

Lemma result_ret {A} (a : A) self : result (ret a) self = a.
Proof. reflexivity. Qed.

Lemma after_gets {A} (f : HealthLP F -> A) self : after (gets f) self = self.
Proof. reflexivity. Qed.

Lemma result_gets {A} (f : HealthLP F -> A) self : result (gets f) self = f self.
Proof. reflexivity. Qed.

Lemma after_modify (f : HealthLP F -> HealthLP F) self : after (modify f) self = f self.
Proof. reflexivity. Qed.

(** *** What each method leaves behind *)

Lemma after_add_metric self n v lo up cat :
  after (add_metric n v lo up cat) self
  = set_metrics self (metrics self ++ [result (add_metric n v lo up cat) self]).
Proof. reflexivity. Qed.

Lemma after_add_sleep_data self d dur q e :
  after (add_sleep_data d dur q e) self
  = set_sleep_history self
      (sort_by_date (sleep_history self
                     ++ [{| date := d; sleep_duration_hours := dur;
                            sleep_quality_score := q; sleep_efficiency := e |}])).
Proof. reflexivity. Qed.

Lemma after_calculate_sleep_debt self s e :
  after (calculate_sleep_debt s e) self = self.
Proof. reflexivity. Qed.

Lemma after_get_sleep_debt_metric self s e mad :
  after (get_sleep_debt_metric s e mad) self = self.
Proof. reflexivity. Qed.

Lemma after_evaluate_all_metrics self : after evaluate_all_metrics self = self.
Proof. reflexivity. Qed.

Lemma after_get_total_flagged_count self : after get_total_flagged_count self = self.
Proof. reflexivity. Qed.

Lemma after_optimize_health_score self : after optimize_health_score self = self.
Proof.
  unfold optimize_health_score. rewrite after_bind, after_gets, result_gets.
  destruct (metrics self); [reflexivity|].
  destruct (fold_left _ _ _). destruct (neqb _ _); reflexivity.
Qed.

Lemma after_reset self :
  after reset self
  = {| target_sleep_hours := target_sleep_hours self; metrics := []; sleep_history := [] |}.
Proof. reflexivity. Qed.

Lemma result_calculate_sleep_debt self s e :
  result (calculate_sleep_debt s e) self
  = fold_left (debt_step (target_sleep_hours self))
              (in_period s e (sleep_history self)) (lit 0.0).
Proof. reflexivity. Qed.

Lemma result_get_sleep_debt_metric self s e mad :
  result (get_sleep_debt_metric s e mad) self
  = snd (check_flag {| name := "Sleep Debt";
                       value := result (calculate_sleep_debt s e) self;
                       lower_threshold := lit 0.0;
                       upper_threshold := mad;
                       category := "Sleep"; is_flagged := false |}).
Proof. reflexivity. Qed.

End Frames.

#[export] Hint Rewrite @after_bind @result_bind @after_ret @result_ret @after_gets
  @result_gets @after_modify @after_get_sleep_debt_metric
  @after_evaluate_all_metrics @after_get_total_flagged_count
  @after_optimize_health_score : model.

Section ReportFrame.
Context {F : Type} `{Number F}.
Implicit Types (self : HealthLP F) (m : HealthMetric F).

Lemma after_upsert_sleep_debt self m :
  after (upsert_sleep_debt m) self = set_metrics self (upsert (metrics self) m).
Proof.
  unfold upsert_sleep_debt, upsert. autorewrite with model.
  destruct (existing_sleep_debt_idx (metrics self)); reflexivity.
Qed.

Lemma after_build_report self pe rd ps pend rs re n m :
  after (build_report pe rd ps pend rs re n m) self = self.
Proof. unfold build_report. now autorewrite with model. Qed.

(** The report is built on the model as the upsert leaves it. *)
Lemma generate_report_steps self pe rd ps pend rs re :
  let m := result (get_sleep_debt_metric ps pend default_max_acceptable_debt) self in
  generate_report pe rd ps pend rs re self
  = build_report pe rd ps pend rs re (timedelta_days pend ps + 1) m
      (set_metrics self (upsert (metrics self) m)).
Proof.
  intros m. rewrite <- after_upsert_sleep_debt.
  unfold generate_report, bind at 1 2, after.
  change (get_sleep_debt_metric ps pend default_max_acceptable_debt self) with (m, self).
  cbv beta iota. destruct (upsert_sleep_debt m self). reflexivity.
Qed.

(** [generate_report] changes the model by the upsert and nothing else. *)
Lemma after_generate_report self pe rd ps pend rs re :
  after (generate_report pe rd ps pend rs re) self
  = set_metrics self
      (upsert (metrics self)
              (result (get_sleep_debt_metric ps pend default_max_acceptable_debt) self)).
Proof.
  unfold after at 1. rewrite generate_report_steps.
  apply after_build_report.
Qed.

End ReportFrame.

(* --------------------------------------------------------------------- *)
(** *** The sleep-debt metric is a query                                  *)
(* --------------------------------------------------------------------- *)

Section SleepDebtMetric.
Context {F : Type} `{Number F}.
Implicit Types (self : HealthLP F) (m : HealthMetric F).

Lemma check_flag_consistent m : flag_consistent (snd (check_flag m)).
Proof. reflexivity. Qed.

Lemma check_flag_fields m :
  let m' := snd (check_flag m) in
  name m' = name m /\ value m' = value m
  /\ lower_threshold m' = lower_threshold m
  /\ upper_threshold m' = upper_threshold m
  /\ category m' = category m.
Proof. repeat split. Qed.

(** C8.  [get_sleep_debt_metric] returns a metric named "Sleep Debt" of
    category "Sleep", with thresholds [0.0] and [max_acceptable_debt],
    whose value is the sleep debt of the period and whose flag is
    evaluated; the model it is called on is left exactly as it was: the
    metric is not stored, and neither the metric list, nor the sleep
    history, nor the target changes. *)
Theorem get_sleep_debt_metric_pure self start_date end_date max_acceptable_debt :
  let call := get_sleep_debt_metric start_date end_date max_acceptable_debt in
  let m := result call self in
  after call self = self
  /\ metrics (after call self) = metrics self
  /\ sleep_history (after call self) = sleep_history self
  /\ target_sleep_hours (after call self) = target_sleep_hours self
  /\ name m = "Sleep Debt"
  /\ category m = "Sleep"
  /\ lower_threshold m = lit 0.0
  /\ upper_threshold m = max_acceptable_debt
  /\ value m = result (calculate_sleep_debt start_date end_date) self
  /\ flag_consistent m.
Proof.
  intros call m. subst call m.
  rewrite after_get_sleep_debt_metric, result_get_sleep_debt_metric.
  repeat split.
Qed.

End SleepDebtMetric.

(* --------------------------------------------------------------------- *)
(** *** The sleep history stays sorted                                    *)
(* --------------------------------------------------------------------- *)

Section SleepLedger.
Context {F : Type} `{Number F}.
Implicit Types (self : HealthLP F) (x y : SleepData F) (l : list (SleepData F)).

Lemma insert_by_date_perm x l : insert_by_date x l ≡ₚ x :: l.
Proof.
  induction l as [|y l IH]; cbn; [reflexivity|].
  destruct (date x <=? date y); [reflexivity|].
  rewrite IH. apply perm_swap.
Qed.

Lemma sort_by_date_cons x l :
  sort_by_date (x :: l) = insert_by_date x (sort_by_date l).
Proof. reflexivity. Qed.

Lemma sort_by_date_perm l : sort_by_date l ≡ₚ l.
Proof.
  induction l as [|x l IH]; [reflexivity|].
  rewrite sort_by_date_cons, insert_by_date_perm. now rewrite IH.
Qed.

Lemma insert_by_date_sorted x l : date_sorted l -> date_sorted (insert_by_date x l).
Proof.
  unfold date_sorted. induction 1 as [|y l Hl IH Hy]; cbn.
  - repeat constructor.
  - destruct (Z.leb_spec (date x) (date y)) as [Hxy|Hxy].
    + constructor; [now constructor|].
      constructor; [exact Hxy|].
      eapply Forall_impl; [exact Hy|]. cbn. intros z Hz. lia.
    + constructor; [exact IH|].
      rewrite insert_by_date_perm. constructor; [lia|exact Hy].
Qed.

Lemma sort_by_date_sorted l : date_sorted (sort_by_date l).
Proof.
  induction l as [|x l IH].
  - constructor.
  - rewrite sort_by_date_cons. now apply insert_by_date_sorted.
Qed.

(** The sort is stable: records of one date keep their order. *)
Lemma insert_by_date_stable (d : datetime) x l :
  date_sorted l ->
  filter (fun s => date s = d) (insert_by_date x l)
  = filter (fun s => date s = d) (x :: l).
Proof.
  unfold date_sorted. induction 1 as [|y l Hl IH Hy]; cbn; [reflexivity|].
  destruct (Z.leb_spec (date x) (date y)) as [Hxy|Hxy]; [reflexivity|].
  rewrite !filter_cons in *.
  destruct (decide (date y = d)) as [Hyd|Hyd], (decide (date x = d)) as [Hxd|Hxd];
    try (rewrite IH; reflexivity).
  lia.
Qed.

Lemma sort_by_date_stable (d : datetime) l :
  filter (fun s => date s = d) (sort_by_date l) = filter (fun s => date s = d) l.
Proof.
  induction l as [|x l IH]; [reflexivity|].
  rewrite sort_by_date_cons, insert_by_date_stable by apply sort_by_date_sorted.
  rewrite !filter_cons, IH. reflexivity.
Qed.

(** Each call keeps the history sorted. *)
Lemma exec_date_sorted (c : Call F) self :
  date_sorted (sleep_history self) -> date_sorted (sleep_history (exec c self)).
Proof.
  intros Hs. destruct c; cbn [exec].
  - rewrite after_add_metric. exact Hs.
  - rewrite after_add_sleep_data. apply sort_by_date_sorted.
  - exact Hs.
  - exact Hs.
  - exact Hs.
  - exact Hs.
  - rewrite after_optimize_health_score. exact Hs.
  - rewrite after_reset. constructor.
  - rewrite after_generate_report. exact Hs.
Qed.

Lemma exec_all_date_sorted (cs : list (Call F)) self :
  date_sorted (sleep_history self) -> date_sorted (sleep_history (exec_all cs self)).
Proof.
  revert self. induction cs as [|c cs IH]; intros self Hs; cbn; [exact Hs|].
  apply IH, exec_date_sorted, Hs.
Qed.

(** C7.  After [add_sleep_data] the history is sorted ascending by date,
    whatever it was before, and holds exactly the records it held plus the
    new one (so two records of one date are both kept); and in every state
    that calls on the public interface lead to from a new model, the
    history is sorted. *)
Theorem sleep_history_sorted :
  (forall self date duration quality efficiency,
      let self' := after (add_sleep_data date duration quality efficiency) self in
      date_sorted (sleep_history self')
      /\ sleep_history self'
         ≡ₚ sleep_history self
            ++ [{| date := date; sleep_duration_hours := duration;
                   sleep_quality_score := quality; sleep_efficiency := efficiency |}])
  /\ (forall (target : F) (calls : list (Call F)),
        date_sorted (sleep_history (exec_all calls (HealthLP_init target)))).
Proof.
  split.
  - intros self d dur q e self'. subst self'. rewrite after_add_sleep_data. cbn.
    split; [apply sort_by_date_sorted | apply sort_by_date_perm].
  - intros target calls. apply exec_all_date_sorted. constructor.
Qed.

End SleepLedger.

(* --------------------------------------------------------------------- *)
(** *** The metric store                                                  *)
(* --------------------------------------------------------------------- *)

Section MetricStore.
Context {F : Type} `{Number F}.
Implicit Types (self : HealthLP F) (m x : HealthMetric F) (ms : list (HealthMetric F)).

(** The upsert, read along the list. *)
Lemma upsert_nil m : upsert [] m = [m].
Proof. reflexivity. Qed.

Lemma upsert_cons x ms m :
  upsert (x :: ms) m = if decide (is_sleep_debt x) then m :: ms else x :: upsert ms m.
Proof.
  unfold upsert, existing_sleep_debt_idx, is_sleep_debt_dec, is_sleep_debt. cbn.
  destruct (decide (name x = "Sleep Debt")); [reflexivity|].
  destruct (list_find _ ms) as [[i y]|]; reflexivity.
Qed.

Lemma upsert_absent ms m :
  Forall (fun x => ~ is_sleep_debt x) ms -> upsert ms m = ms ++ [m].
Proof.
  induction 1 as [|x ms Hx _ IH]; [reflexivity|].
  rewrite upsert_cons, decide_False by exact Hx. cbn. now rewrite IH.
Qed.

Lemma sleep_debt_metrics_nil_iff ms :
  sleep_debt_metrics ms = [] <-> Forall (fun x => ~ is_sleep_debt x) ms.
Proof.
  unfold sleep_debt_metrics. induction ms as [|x ms IH]; [now split|].
  rewrite filter_cons, Forall_cons.
  destruct (decide (is_sleep_debt x)); [split; [discriminate|tauto]|].
  rewrite IH. tauto.
Qed.

Lemma upsert_present ms m i old :
  (length (sleep_debt_metrics ms) <= 1)%nat ->
  ms !! i = Some old -> is_sleep_debt old -> upsert ms m = <[i := m]> ms.
Proof.
  revert i. induction ms as [|x ms IH]; intros i Hone Hi Hold; [discriminate|].
  rewrite upsert_cons. unfold sleep_debt_metrics in Hone.
  rewrite filter_cons in Hone.
  destruct (decide (is_sleep_debt x)) as [Hx|Hx].
  - destruct i as [|i]; [reflexivity|]. cbn in Hi, Hone.
    assert (Hnil : sleep_debt_metrics ms = []).
    { unfold sleep_debt_metrics. destruct (filter _ ms); [reflexivity|cbn in Hone; lia]. }
    apply sleep_debt_metrics_nil_iff in Hnil.
    rewrite Forall_lookup in Hnil. now destruct (Hnil i old Hi).
  - destruct i as [|i]; cbn in Hi.
    + now inversion Hi; subst.
    + cbn. f_equal. now apply IH.
Qed.

Lemma sleep_debt_metrics_upsert ms m :
  (length (sleep_debt_metrics ms) <= 1)%nat -> is_sleep_debt m ->
  sleep_debt_metrics (upsert ms m) = [m].
Proof.
  intros Hone Hm. unfold sleep_debt_metrics in *.
  induction ms as [|x ms IH].
  - rewrite upsert_nil, filter_cons, decide_True by exact Hm. reflexivity.
  - rewrite upsert_cons. rewrite filter_cons in Hone.
    destruct (decide (is_sleep_debt x)) as [Hx|Hx].
    + rewrite filter_cons, decide_True by exact Hm. f_equal.
      destruct (filter _ ms); [reflexivity|cbn in Hone; lia].
    + rewrite filter_cons, decide_False by exact Hx. now apply IH.
Qed.

Lemma other_metrics_upsert ms m :
  is_sleep_debt m -> other_metrics (upsert ms m) = other_metrics ms.
Proof.
  intros Hm. unfold other_metrics. induction ms as [|x ms IH].
  - rewrite upsert_nil, filter_cons, decide_False; [reflexivity|tauto].
  - rewrite upsert_cons. destruct (decide (is_sleep_debt x)) as [Hx|Hx].
    + rewrite !filter_cons, !decide_False by tauto. reflexivity.
    + rewrite !filter_cons, !decide_True, IH by exact Hx. reflexivity.
Qed.

Lemma upsert_keeps_others ms m i x :
  ms !! i = Some x -> ~ is_sleep_debt x -> upsert ms m !! i = Some x.
Proof.
  revert i. induction ms as [|y ms IH]; intros i Hi Hx; [discriminate|].
  rewrite upsert_cons. destruct (decide (is_sleep_debt y)) as [Hy|Hy].
  - destruct i as [|i]; cbn in *; [|exact Hi]. inversion Hi; subst. tauto.
  - destruct i as [|i]; cbn in *; [exact Hi|]. now apply IH.
Qed.

Lemma upsert_upsert ms m m' :
  is_sleep_debt m -> upsert (upsert ms m) m' = upsert ms m'.
Proof.
  intros Hm. induction ms as [|x ms IH].
  - rewrite upsert_nil, upsert_cons, decide_True by exact Hm. reflexivity.
  - rewrite !upsert_cons. destruct (decide (is_sleep_debt x)) as [Hx|Hx].
    + rewrite upsert_cons, decide_True by exact Hm. reflexivity.
    + rewrite upsert_cons, decide_False, IH by exact Hx. reflexivity.
Qed.

Lemma Forall_upsert (P : HealthMetric F -> Prop) ms m :
  Forall P ms -> P m -> Forall P (upsert ms m).
Proof.
  intros Hms Hm. induction Hms as [|x ms Hx Hms IH].
  - rewrite upsert_nil. now constructor.
  - rewrite upsert_cons. destruct (decide (is_sleep_debt x)); now constructor.
Qed.

Lemma sleep_debt_metric_named self s e mad :
  is_sleep_debt (result (get_sleep_debt_metric s e mad) self).
Proof. reflexivity. Qed.

Lemma metrics_after_generate_report self pe rd ps pend rs re :
  metrics (after (generate_report pe rd ps pend rs re) self)
  = upsert (metrics self)
      (result (get_sleep_debt_metric ps pend default_max_acceptable_debt) self).
Proof. now rewrite after_generate_report. Qed.

End MetricStore.

(* --------------------------------------------------------------------- *)
(** *** Flags, the upsert and the report                                  *)
(* --------------------------------------------------------------------- *)

Section ReportGenerator.
Context {F : Type} `{Number F}.
Implicit Types (self : HealthLP F) (m x : HealthMetric F) (ms : list (HealthMetric F)).

Lemma add_metric_consistent self n v lo up cat :
  flag_consistent (result (add_metric n v lo up cat) self).
Proof. reflexivity. Qed.

Lemma sleep_debt_metric_consistent self s e mad :
  flag_consistent (result (get_sleep_debt_metric s e mad) self).
Proof. reflexivity. Qed.

(** Each call keeps the flags fresh. *)
Lemma exec_flags_fresh (c : Call F) self : flags_fresh self -> flags_fresh (exec c self).
Proof.
  unfold flags_fresh. intros Hs. destruct c; cbn [exec].
  - rewrite after_add_metric. cbn [metrics set_metrics].
    apply Forall_app. split; [exact Hs|].
    constructor; [apply add_metric_consistent|constructor].
  - rewrite after_add_sleep_data. exact Hs.
  - exact Hs.
  - exact Hs.
  - exact Hs.
  - exact Hs.
  - rewrite after_optimize_health_score. exact Hs.
  - rewrite after_reset. constructor.
  - rewrite metrics_after_generate_report.
    apply Forall_upsert; [exact Hs|apply sleep_debt_metric_consistent].
Qed.

Lemma exec_all_flags_fresh (cs : list (Call F)) self :
  flags_fresh self -> flags_fresh (exec_all cs self).
Proof.
  revert self. induction cs as [|c cs IH]; intros self Hs; cbn; [exact Hs|].
  apply IH, exec_flags_fresh, Hs.
Qed.

(** C1.  In every state that calls on the public interface ([add_metric],
    [add_sleep_data], the queries, [reset], [generate_report]) lead to
    from a new model, every stored metric has
    [is_flagged = (value < lower_threshold or value > upper_threshold)]. *)
Theorem flags_never_stale (target : F) (calls : list (Call F)) :
  flags_fresh (exec_all calls (HealthLP_init target))
  /\ Forall (fun m => is_flagged m = out_of_range m)
            (metrics (exec_all calls (HealthLP_init target))).
Proof.
  assert (Hf : flags_fresh (exec_all calls (HealthLP_init target))).
  { apply exec_all_flags_fresh. constructor. }
  split; exact Hf.
Qed.

(** C3.  On a model with at most one metric named "Sleep Debt",
    [generate_report] leaves exactly one, the metric computed for the
    period of the report: it takes the place of the old one, at the same
    index, when there was one, and is appended at the end otherwise.  A
    second report, for any period, again leaves exactly one, the metric
    computed for that second period. *)
Theorem generate_report_upserts self pe rd ps pend rs re :
  (length (sleep_debt_metrics (metrics self)) <= 1)%nat ->
  let m := result (get_sleep_debt_metric ps pend default_max_acceptable_debt) self in
  let self' := after (generate_report pe rd ps pend rs re) self in
  sleep_debt_metrics (metrics self') = [m]
  /\ value m = result (calculate_sleep_debt ps pend) self
  /\ (forall i old,
        metrics self !! i = Some old -> is_sleep_debt old ->
        metrics self' = <[i := m]> (metrics self)
        /\ metrics self' !! i = Some m
        /\ length (metrics self') = length (metrics self))
  /\ (sleep_debt_metrics (metrics self) = [] -> metrics self' = metrics self ++ [m])
  /\ (forall pe2 rd2 ps2 pend2 rs2 re2,
        let m2 :=
          result (get_sleep_debt_metric ps2 pend2 default_max_acceptable_debt) self' in
        sleep_debt_metrics
          (metrics (after (generate_report pe2 rd2 ps2 pend2 rs2 re2) self')) = [m2]
        /\ value m2 = result (calculate_sleep_debt ps2 pend2) self).
Proof.
  intros Hone m self'. subst self'.
  rewrite metrics_after_generate_report. fold m.
  assert (Hm : is_sleep_debt m) by apply sleep_debt_metric_named.
  assert (H1 : sleep_debt_metrics (upsert (metrics self) m) = [m])
    by now apply sleep_debt_metrics_upsert.
  split; [exact H1|]. split; [reflexivity|]. split; [|split].
  - intros i old Hi Hold.
    rewrite (upsert_present _ m i old Hone Hi Hold).
    split; [reflexivity|]. split; [|apply length_insert].
    apply list_lookup_insert_eq. eapply lookup_lt_Some, Hi.
  - intros Hnil. apply upsert_absent. now apply sleep_debt_metrics_nil_iff.
  - intros pe2 rd2 ps2 pend2 rs2 re2 m2. subst m2.
    rewrite metrics_after_generate_report, after_generate_report.
    cbn [metrics set_metrics]. split; [|reflexivity].
    apply sleep_debt_metrics_upsert; [|apply sleep_debt_metric_named].
    fold m. rewrite H1. cbn. lia.
Qed.

(** C9.  [generate_report] changes nothing of the model but the metric
    named "Sleep Debt": the sleep history and the target are the same,
    and the metrics of any other name are the same objects, with the same
    values and flags, in the same order and at the same indices. *)
Theorem generate_report_frame self pe rd ps pend rs re :
  let self' := after (generate_report pe rd ps pend rs re) self in
  sleep_history self' = sleep_history self
  /\ target_sleep_hours self' = target_sleep_hours self
  /\ other_metrics (metrics self') = other_metrics (metrics self)
  /\ (forall i x,
        metrics self !! i = Some x /\ ~ is_sleep_debt x -> metrics self' !! i = Some x).
Proof.
  intros self'. subst self'. rewrite after_generate_report. cbn [metrics set_metrics].
  split; [reflexivity|]. split; [reflexivity|]. split.
  - apply other_metrics_upsert, sleep_debt_metric_named.
  - intros i x [Hi Hx]. now apply upsert_keeps_others.
Qed.

(** C10.  A second [generate_report] with the same arguments, on the
    model as the first call left it, returns the same report and leaves
    the model as the first call left it. *)
Theorem generate_report_idempotent self pe rd ps pend rs re :
  let first := generate_report pe rd ps pend rs re self in
  let second := generate_report pe rd ps pend rs re (snd first) in
  fst second = fst first /\ snd second = snd first.
Proof.
  intros first second.
  assert (Hsame : second = first).
  { subst second first.
    pose proof (after_generate_report self pe rd ps pend rs re) as Hafter.
    unfold after in Hafter. rewrite Hafter.
    rewrite !generate_report_steps.
    set (m := result (get_sleep_debt_metric ps pend default_max_acceptable_debt) self).
    change (result (get_sleep_debt_metric ps pend default_max_acceptable_debt)
                   (set_metrics self (upsert (metrics self) m))) with m.
    cbn [metrics set_metrics].
    rewrite upsert_upsert by apply sleep_debt_metric_named.
    reflexivity. }
  now rewrite Hsame.
Qed.

End ReportGenerator.

(* ===================================================================== *)
(** ** The per-metric score, for every number type                        *)
(* ===================================================================== *)

Section Scorer.
Context {F : Type} `{Number F}.
Implicit Types (m : HealthMetric F).

Lemma py_min_cases (a b : F) :
  (nltb b a = true /\ py_min a b = b) \/ (nltb b a = false /\ py_min a b = a).
Proof. unfold py_min. destruct (nltb b a); auto. Qed.

Lemma py_max_cases (a b : F) :
  (nltb a b = true /\ py_max a b = b) \/ (nltb a b = false /\ py_max a b = a).
Proof. unfold py_max, ngtb. destruct (nltb a b); auto. Qed.

(** The clamp yields an end point, or its argument when that lies
    strictly between the end points. *)
Lemma clamp_in_unit_interval (x : F) :
  in_unit_interval (py_max (lit 0.0) (py_min (lit 1.0) x)).
Proof.
  unfold in_unit_interval.
  destruct (py_max_cases (lit 0.0) (py_min (lit 1.0) x)) as [[Hlt ->]|[_ ->]]; [|auto].
  destruct (py_min_cases (lit 1.0) x) as [[Hx Hmin]|[_ Hmin]]; rewrite Hmin in *; auto.
Qed.

Lemma clamped_normalized_in_unit_interval m :
  in_unit_interval (clamped_normalized m).
Proof. apply clamp_in_unit_interval. Qed.

(** The weight of a metric is one of the three of the table or the
    default. *)
Lemma metric_weight_cases m :
  metric_weight m = lit 0.3 \/ metric_weight m = lit 0.4 \/ metric_weight m = lit 0.1.
Proof.
  unfold metric_weight, category_weights.
  rewrite !lookup_insert, lookup_singleton.
  repeat case_decide; cbn; auto.
Qed.

(** C5, as the code has it.  For a metric with
    [upper_threshold > lower_threshold], the score that
    [optimize_health_score] weighs is [0.3] or [0.7] when the metric is
    flagged ([0.3] when the clamped normalized value is below [0.5],
    [0.7] otherwise), and the clamped normalized value itself, a value of
    the unit interval, when it is not. *)
Theorem metric_score_cases m :
  ngtb (upper_threshold m) (lower_threshold m) = true ->
  (is_flagged m = true ->
     metric_score m
     = (if nltb (clamped_normalized m) (lit 0.5) then lit 0.3 else lit 0.7)
     /\ (metric_score m = lit 0.3 \/ metric_score m = lit 0.7))
  /\ (is_flagged m = false ->
        metric_score m = clamped_normalized m /\ in_unit_interval (metric_score m))
  /\ (forall acc,
        score_step acc m
        = (nadd (fst acc) (nmul (metric_score m) (metric_weight m)),
           nadd (snd acc) (metric_weight m))).
Proof.
  intros Hrange. split; [|split].
  - unfold metric_score. rewrite Hrange. intros ->. split; [reflexivity|].
    destruct (nltb (clamped_normalized m) (lit 0.5)); auto.
  - unfold metric_score. rewrite Hrange. intros ->. split; [reflexivity|].
    apply clamped_normalized_in_unit_interval.
  - reflexivity.
Qed.

End Scorer.

(* ===================================================================== *)
(** ** Rounding in binary64: what [SpecFloat] computes                    *)
(* ===================================================================== *)

(** The constants of binary64, for [lia]. *)
Ltac fconst :=
  pose proof (eq_refl : prec = 53) as Hprec;
  pose proof (eq_refl : emax = 1024) as Hemax;
  unfold SpecFloat.fexp, SpecFloat.emin in *.

(** The cases of a subtraction with a zero, an infinity or a NaN. *)
Ltac special_values :=
  lazymatch goal with
  | |- context [SFsub _ _ (S754_finite _ _ _) (S754_finite _ _ _)] => fail
  | _ => intros;
         repeat match goal with s : bool |- _ => destruct s end;
         cbn in *
  end.

Section Rounding.

Lemma bpow_pos e : (0 < bpow e)%Q.
Proof. unfold bpow. apply Qpower_0_lt. reflexivity. Qed.

Lemma bpow_add a b : (bpow (a + b) == bpow a * bpow b)%Q.
Proof. unfold bpow. apply Qpower_plus. discriminate. Qed.

Lemma bpow_0 : (bpow 0 == 1)%Q.
Proof. reflexivity. Qed.

Lemma bpow_1 : (bpow 1 == 2)%Q.
Proof. reflexivity. Qed.

Lemma bpow_succ e : (bpow (e + 1) == 2 * bpow e)%Q.
Proof. rewrite bpow_add, bpow_1. ring. Qed.

Lemma bpow_opp e : (bpow (- e) == / bpow e)%Q.
Proof. unfold bpow. apply Qpower_opp. Qed.

Lemma bpow_sub a b : (bpow (a - b) == bpow a / bpow b)%Q.
Proof. unfold Z.sub. rewrite bpow_add, bpow_opp. reflexivity. Qed.

Lemma bpow_Z e : 0 <= e -> (bpow e == inject_Z (2 ^ e))%Q.
Proof.
  intros He. unfold bpow. rewrite Zpower_Qpower by exact He. reflexivity.
Qed.

Lemma bpow_le a b : a <= b -> (bpow a <= bpow b)%Q.
Proof.
  intros Hab. replace b with (a + (b - a)) by lia.
  rewrite bpow_add, (bpow_Z (b - a)) by lia.
  pose proof (bpow_pos a).
  assert (1 <= 2 ^ (b - a)) by (apply Z.lt_pred_le, Z.pow_pos_nonneg; lia).
  assert (1 <= inject_Z (2 ^ (b - a)))%Q by (rewrite Zle_Qle in *; assumption).
  nra.
Qed.

Lemma bpow_lt a b : a < b -> (bpow a < bpow b)%Q.
Proof.
  intros Hab. apply Qlt_le_trans with (bpow (a + 1)); [|apply bpow_le; lia].
  rewrite bpow_succ. pose proof (bpow_pos a). lra.
Qed.

Lemma bpow_lt_inv a b : (bpow a < bpow b)%Q -> a < b.
Proof.
  intros H. destruct (Z_lt_le_dec a b); [assumption|].
  pose proof (bpow_le b a ltac:(lia)). lra.
Qed.

(** *** Digits *)

Lemma digits2_pos_spec (p : positive) :
  2 ^ (Z.pos (digits2_pos p) - 1) <= Z.pos p < 2 ^ Z.pos (digits2_pos p).
Proof.
  induction p as [p IH|p IH|]; cbn [digits2_pos].
  - rewrite Pos2Z.inj_succ.
    replace (Z.succ (Z.pos (digits2_pos p)) - 1) with (Z.succ (Z.pos (digits2_pos p) - 1)) by lia.
    rewrite !Z.pow_succ_r by lia. lia.
  - rewrite Pos2Z.inj_succ.
    replace (Z.succ (Z.pos (digits2_pos p)) - 1) with (Z.succ (Z.pos (digits2_pos p) - 1)) by lia.
    rewrite !Z.pow_succ_r by lia. lia.
  - cbn. lia.
Qed.

Lemma Zdigits2_spec (m : Z) :
  0 < m -> 2 ^ (Zdigits2 m - 1) <= m < 2 ^ Zdigits2 m.
Proof.
  destruct m as [|p|p]; try lia. intros _. apply digits2_pos_spec.
Qed.

Lemma Zdigits2_pos (m : Z) : 0 < m -> 0 < Zdigits2 m.
Proof. destruct m; cbn; lia. Qed.

(** Digits are determined by the bounds. *)
Lemma Zdigits2_unique (m d : Z) :
  2 ^ (d - 1) <= m < 2 ^ d -> 0 < m -> Zdigits2 m = d.
Proof.
  intros Hd Hm. pose proof (Zdigits2_spec m Hm) as Hs.
  pose proof (Zdigits2_pos m Hm).
  assert (0 < d).
  { destruct (Z_lt_le_dec 0 d); [assumption|].
    rewrite (Z.pow_neg_r 2 (d - 1)) in Hd by lia.
    destruct (Z.eq_dec d 0) as [->|]; [cbn in Hd; lia|].
    rewrite (Z.pow_neg_r 2 d) in Hd by lia. lia. }
  destruct (Z.lt_trichotomy (Zdigits2 m) d) as [Hlt|[Heq|Hgt]]; [|exact Heq|].
  - assert (2 ^ Zdigits2 m <= 2 ^ (d - 1)) by (apply Z.pow_le_mono_r; lia). lia.
  - assert (2 ^ d <= 2 ^ (Zdigits2 m - 1)) by (apply Z.pow_le_mono_r; lia). lia.
Qed.

Lemma Zdigits2_le (m n : Z) : 0 < m -> m <= n -> Zdigits2 m <= Zdigits2 n.
Proof.
  intros Hm Hmn.
  pose proof (Zdigits2_spec m Hm). pose proof (Zdigits2_spec n ltac:(lia)).
  pose proof (Zdigits2_pos m Hm).
  destruct (Z_lt_le_dec (Zdigits2 n) (Zdigits2 m)); [|assumption].
  assert (2 ^ Zdigits2 n <= 2 ^ (Zdigits2 m - 1)) by (apply Z.pow_le_mono_r; lia). lia.
Qed.

(** *** Locations *)

Lemma inb_bounds m l q : inb m l q -> (inject_Z m <= q < inject_Z m + 1)%Q.
Proof. destruct l as [|c]; cbn; [intros ->; lra|intros [[? ?] _]; lra]. Qed.

Lemma record_eta (r : shr_record) :
  shr_record_of_loc (shr_m r) (loc_of_shr_record r) = r.
Proof. now destruct r as [m [|] [|]]. Qed.

Lemma loc_of_record_of_loc m l : loc_of_shr_record (shr_record_of_loc m l) = l.
Proof. now destruct l as [|[| |]]. Qed.

Lemma shr_m_record_of_loc m l : shr_m (shr_record_of_loc m l) = m.
Proof. now destruct l as [|[| |]]. Qed.

Lemma inject_Z_double (p : Z) : (inject_Z (2 * p) == 2 * inject_Z p)%Q.
Proof. rewrite inject_Z_mult. reflexivity. Qed.

Lemma inject_Z_double1 (p : Z) : (inject_Z (2 * p + 1) == 2 * inject_Z p + 1)%Q.
Proof. rewrite inject_Z_plus, inject_Z_mult. reflexivity. Qed.

Lemma shr_1_inb (m : Z) (l : location) (q : Q) :
  0 <= m -> inb m l q ->
  let r := shr_1 (shr_record_of_loc m l) in
  inb (shr_m r) (loc_of_shr_record r) (q * (1 # 2)) /\ shr_m r = m / 2.
Proof.
  intros Hm Hq r.
  assert (Hdiv : exists k b, m = 2 * k + b /\ (b = 0 \/ b = 1) /\ 0 <= k).
  { exists (m / 2), (m mod 2). pose proof (Z.mod_pos_bound m 2 ltac:(lia)).
    pose proof (Z.div_mod m 2 ltac:(lia)). 
    assert (0 <= m / 2) by (apply Z.div_pos; lia). lia. }
  destruct Hdiv as (k & b & Hmk & Hb & Hk).
  assert (Hk2 : m / 2 = k).
  { subst m. destruct Hb as [->| ->].
    - rewrite Z.add_0_r, Z.mul_comm, Z.div_mul; lia.
    - symmetry. apply (Z.div_unique (2 * k + 1) 2 k 1); lia. }
  rewrite Hk2.
  assert (Hr : r = match b with
                   | 0 => Build_shr_record k false
                            (negb (match l with loc_Exact => true | _ => false end))
                   | _ => Build_shr_record k true
                            (negb (match l with loc_Exact => true | _ => false end))
                   end).
  { subst r m. destruct Hb as [->| ->].
    - rewrite Z.add_0_r. destruct k as [|k|k]; try lia;
        destruct l as [|[| |]]; reflexivity.
    - destruct k as [|k|k]; try lia; destruct l as [|[| |]]; reflexivity. }
  rewrite Hr. clear Hr r.
  destruct Hb as [-> | ->].
  - (* even *)
    rewrite Z.add_0_r in Hmk. subst m. split; [|reflexivity]. cbn [shr_m].
    destruct l as [|c]; cbn [negb loc_of_shr_record inb] in *.
    + rewrite Hq, inject_Z_double. lra.
    + destruct Hq as [[H1 H2] _]. rewrite inject_Z_double in H1, H2.
      split; [split; lra|]. apply (proj1 (Qlt_alt _ _)). lra.
  - subst m. split; [|reflexivity]. cbn [shr_m].
    destruct l as [|c]; cbn [negb loc_of_shr_record inb] in *.
    + split; [split|].
      * rewrite Hq, inject_Z_double1. lra.
      * rewrite Hq, inject_Z_double1. lra.
      * apply (proj1 (Qeq_alt _ _)). rewrite Hq, inject_Z_double1. lra.
    + destruct Hq as [[H1 H2] _]. rewrite inject_Z_double1 in H1, H2.
      split; [split; lra|]. apply (proj1 (Qgt_alt _ _)). lra.
Qed.

Lemma inb_ext m l (q q' : Q) : (q == q')%Q -> inb m l q -> inb m l q'.
Proof.
  intros Hq. destruct l as [|c]; cbn.
  - now rewrite Hq.
  - now rewrite Hq.
Qed.

Lemma iter_pos_inv {A} (P : nat -> A -> Prop) (f : A -> A) :
  (forall n x, P n x -> P (S n) (f x)) ->
  forall p n x, P n x -> P (n + Pos.to_nat p)%nat (SpecFloat.iter_pos f p x).
Proof.
  intros Hf. induction p as [p IH|p IH|]; intros n x Hx; cbn [SpecFloat.iter_pos].
  - replace (n + Pos.to_nat p~1)%nat with (S n + Pos.to_nat p + Pos.to_nat p)%nat by lia.
    apply IH, IH, Hf, Hx.
  - replace (n + Pos.to_nat p~0)%nat with (n + Pos.to_nat p + Pos.to_nat p)%nat by lia.
    apply IH, IH, Hx.
  - replace (n + Pos.to_nat 1)%nat with (S n) by lia. apply Hf, Hx.
Qed.

Lemma div_bpow_succ (x : Q) (e : Z) : (x / bpow (e + 1) == x / bpow e * (1 # 2))%Q.
Proof.
  rewrite bpow_succ. pose proof (bpow_pos e). field. lra.
Qed.

Lemma shr_inb (m : Z) (l : location) (x : Q) (e n : Z) :
  0 <= m -> 0 <= n -> inb m l (x / bpow e) ->
  let r := fst (shr (shr_record_of_loc m l) e n) in
  snd (shr (shr_record_of_loc m l) e n) = e + n
  /\ inb (shr_m r) (loc_of_shr_record r) (x / bpow (e + n))
  /\ shr_m r = m / 2 ^ n.
Proof.
  intros Hm Hn Hq r. subst r. destruct n as [|p|p]; [| |lia].
  - cbn [shr fst snd]. rewrite Z.add_0_r, loc_of_record_of_loc, shr_m_record_of_loc.
    rewrite Z.pow_0_r, Z.div_1_r. auto.
  - cbn [shr fst snd]. split; [reflexivity|].
    pose (P := fun (k : nat) (r : shr_record) =>
                 inb (shr_m r) (loc_of_shr_record r) (x / bpow (e + Z.of_nat k))
                 /\ shr_m r = m / 2 ^ Z.of_nat k /\ 0 <= shr_m r).
    assert (Hstep : forall k r, P k r -> P (S k) (shr_1 r)).
    { intros k r (Hr & Hrm & Hr0). unfold P.
      rewrite <- (record_eta r).
      destruct (shr_1_inb (shr_m r) (loc_of_shr_record r) _ Hr0 Hr) as [H1 H2].
      rewrite Nat2Z.inj_succ.
      replace (e + Z.succ (Z.of_nat k)) with (e + Z.of_nat k + 1) by lia.
      split; [|split].
      - eapply inb_ext; [|exact H1]. symmetry. apply div_bpow_succ.
      - rewrite H2, Hrm, Z.div_div by (try apply Z.pow_pos_nonneg; lia).
        rewrite Z.pow_succ_r by lia. f_equal. lia.
      - rewrite H2. apply Z.div_pos; lia. }
    assert (H0 : P 0%nat (shr_record_of_loc m l)).
    { unfold P. rewrite loc_of_record_of_loc, shr_m_record_of_loc. cbn [Z.of_nat].
      rewrite Z.add_0_r, Z.pow_0_r, Z.div_1_r. auto. }
    destruct (iter_pos_inv P shr_1 Hstep p 0%nat _ H0) as (H1 & H2 & _).
    cbn [Nat.add] in H1, H2. rewrite positive_nat_Z in H1, H2. auto.
Qed.

(** *** Rounding to nearest, ties to even *)

Lemma fexp_mono (a b : Z) : a <= b -> fexp a <= fexp b.
Proof. unfold SpecFloat.fexp. lia. Qed.

Lemma fexp_ge_emin (a : Z) : emin <= fexp a.
Proof. unfold SpecFloat.fexp. lia. Qed.

Lemma rne_bounds (m : Z) (l : location) : m <= rne m l <= m + 1.
Proof.
  destruct l as [|[| |]]; cbn; try lia. destruct (Z.even m); lia.
Qed.

Lemma inject_Z_lt_inv (a b : Z) : (inject_Z a < inject_Z b)%Q -> a < b.
Proof. intros H. now rewrite Zlt_Qlt. Qed.

Lemma inject_Z_le_inv (a b : Z) : (inject_Z a <= inject_Z b)%Q -> a <= b.
Proof. intros H. now rewrite Zle_Qle. Qed.

Lemma inject_Z_succ (a : Z) : (inject_Z (a + 1) == inject_Z a + 1)%Q.
Proof. rewrite inject_Z_plus. reflexivity. Qed.

Lemma rne_mono (m1 m2 : Z) (l1 l2 : location) (q1 q2 : Q) :
  inb m1 l1 q1 -> inb m2 l2 q2 -> (q1 <= q2)%Q -> rne m1 l1 <= rne m2 l2.
Proof.
  intros H1 H2 Hq.
  pose proof (inb_bounds _ _ _ H1) as B1. pose proof (inb_bounds _ _ _ H2) as B2.
  assert (Hm : m1 <= m2).
  { assert (inject_Z m1 < inject_Z (m2 + 1))%Q by (rewrite inject_Z_succ; lra).
    apply inject_Z_lt_inv in H. lia. }
  pose proof (rne_bounds m1 l1). pose proof (rne_bounds m2 l2).
  destruct (Z.eq_dec m1 m2) as [->|Hne]; [|lia].
  destruct l1 as [|c1]; [cbn [round_nearest_even]; lia|].
  destruct l2 as [|c2].
  - cbn [inb] in *. destruct H1 as [[? ?] _]. exfalso. lra.
  - cbn [inb] in *. destruct H1 as [_ C1], H2 as [_ C2].
    destruct c1, c2; cbn [round_nearest_even];
      try (destruct (Z.even m2); lia); try lia; exfalso;
      repeat match goal with
             | H : (_ ?= _)%Q = Eq |- _ => apply Qeq_alt in H
             | H : (_ ?= _)%Q = Lt |- _ => apply Qlt_alt in H
             | H : (_ ?= _)%Q = Gt |- _ => apply Qgt_alt in H
             end; lra.
Qed.

Lemma Qdiv_le_compat_r (a b c : Q) : (0 < c)%Q -> (a <= b)%Q -> (a / c <= b / c)%Q.
Proof.
  intros Hc Hab. apply Qle_shift_div_l; [exact Hc|].
  unfold Qdiv. rewrite <- Qmult_assoc, (Qmult_comm (/ c)), Qmult_inv_r, Qmult_1_r by lra.
  exact Hab.
Qed.

Lemma Qdiv_lt_compat_r (a b c : Q) : (0 < c)%Q -> (a < b)%Q -> (a / c < b / c)%Q.
Proof.
  intros Hc Hab. apply Qlt_shift_div_l; [exact Hc|].
  unfold Qdiv. rewrite <- Qmult_assoc, (Qmult_comm (/ c)), Qmult_inv_r, Qmult_1_r by lra.
  exact Hab.
Qed.

Lemma bpow_div (a b : Z) : (bpow a / bpow b == bpow (a - b))%Q.
Proof. now rewrite bpow_sub. Qed.

Lemma bpow_split (a b : Z) : b <= a -> (bpow a == inject_Z (2 ^ (a - b)) * bpow b)%Q.
Proof.
  intros Hab. rewrite <- bpow_Z, <- bpow_add by lia.
  replace (a - b + b) with a by lia. reflexivity.
Qed.

Lemma rounds_to_mono (x1 y1 x2 y2 : Q) :
  rounds_to x1 y1 -> rounds_to x2 y2 -> (x1 <= x2)%Q -> (y1 <= y2)%Q.
Proof.
  intros (k1 & m1 & l1 & [Hx1 Hx1'] & Hq1 & Hy1) (k2 & m2 & l2 & [Hx2 Hx2'] & Hq2 & Hy2) Hx.
  pose proof (eq_refl : prec = 53) as Hprec.
  assert (Hk : k1 <= k2).
  { destruct (Z_lt_le_dec k2 k1); [|assumption].
    pose proof (bpow_le k2 (k1 - 1) ltac:(lia)). lra. }
  pose proof (fexp_mono _ _ Hk) as HE.
  pose proof (bpow_pos (fexp k1)) as HP1. pose proof (bpow_pos (fexp k2)) as HP2.
  pose proof (rne_bounds m1 l1) as R1. pose proof (rne_bounds m2 l2) as R2.
  pose proof (inb_bounds _ _ _ Hq1) as B1. pose proof (inb_bounds _ _ _ Hq2) as B2.
  rewrite Hy1, Hy2.
  destruct (Z.eq_dec (fexp k1) (fexp k2)) as [Heq|Hne].
  - rewrite Heq in *.
    assert (Hm : rne m1 l1 <= rne m2 l2).
    { apply (rne_mono _ _ _ _ _ _ Hq1 Hq2). now apply Qdiv_le_compat_r. }
    rewrite Zle_Qle in Hm. nra.
  - assert (HE2 : fexp k2 = k2 - prec) by (unfold SpecFloat.fexp in *; lia).
    assert (Hk12 : k1 <= k2 - 1) by (unfold SpecFloat.fexp in *; lia).
    apply Qle_trans with (bpow (k2 - 1)).
    + (* y1 below the binade of x2 *)
      assert (Hr1 : (inject_Z (rne m1 l1) <= inject_Z (m1 + 1))%Q)
        by (rewrite Zle_Qle in R1; rewrite <- Zle_Qle; lia).
      rewrite inject_Z_succ in Hr1.
      destruct (Z_le_gt_dec (fexp k1) k1) as [Hge|Hlt].
      * assert (Hq : (x1 / bpow (fexp k1) < inject_Z (2 ^ (k1 - fexp k1)))%Q).
        { apply Qlt_shift_div_r; [exact HP1|].
          rewrite <- (bpow_split k1 (fexp k1)) by lia. exact Hx1'. }
        assert (Hm1 : m1 + 1 <= 2 ^ (k1 - fexp k1)).
        { assert (inject_Z m1 < inject_Z (2 ^ (k1 - fexp k1)))%Q by lra.
          apply inject_Z_lt_inv in H. lia. }
        rewrite Zle_Qle in Hm1. rewrite inject_Z_succ in Hm1.
        apply Qle_trans with (bpow k1); [|apply bpow_le; lia].
        rewrite (bpow_split k1 (fexp k1)) by lia. nra.
      * assert (Hq : (x1 / bpow (fexp k1) < 1)%Q).
        { apply Qlt_shift_div_r; [exact HP1|]. rewrite Qmult_1_l.
          apply Qlt_le_trans with (bpow k1); [exact Hx1'|]. apply bpow_le. lia. }
        assert (Hm1 : m1 <= 0).
        { assert (inject_Z m1 < inject_Z 1)%Q by (change (inject_Z 1) with 1%Q; lra).
          apply inject_Z_lt_inv in H. lia. }
        rewrite Zle_Qle in Hm1. change (inject_Z 0) with 0%Q in Hm1.
        apply Qle_trans with (bpow (fexp k1)); [nra|].
        apply bpow_le. unfold SpecFloat.fexp, prec in *. lia.
    + (* y2 at least the bottom of its binade *)
      assert (Hq : (inject_Z (2 ^ (prec - 1)) <= x2 / bpow (fexp k2))%Q).
      { apply Qle_shift_div_l; [exact HP2|].
        pose proof (bpow_split (k2 - 1) (fexp k2) ltac:(lia)) as Hs.
        replace (k2 - 1 - fexp k2) with (prec - 1) in Hs by lia.
        rewrite <- Hs. exact Hx2. }
      assert (Hm2 : 2 ^ (prec - 1) <= m2).
      { assert (inject_Z (2 ^ (prec - 1)) < inject_Z (m2 + 1))%Q
          by (rewrite inject_Z_succ; lra).
        apply inject_Z_lt_inv in H. lia. }
      assert (Hm2' : (inject_Z (2 ^ (prec - 1)) <= inject_Z (rne m2 l2))%Q)
        by (rewrite <- Zle_Qle; lia).
      rewrite (bpow_split (k2 - 1) (fexp k2)) by lia.
      replace (k2 - 1 - fexp k2) with (prec - 1) by lia.
      pose proof (bpow_pos (fexp k2)). nra.
Qed.

Lemma rounds_to_unique (x y y' : Q) : rounds_to x y -> rounds_to x y' -> (y == y')%Q.
Proof.
  intros H H'. apply Qle_antisym; eapply rounds_to_mono; eauto; lra.
Qed.

(** A canonical mantissa and exponent round to themselves. *)
Lemma rounds_to_canonical (m e : Z) :
  0 < m -> e = fexp (Zdigits2 m + e) ->
  rounds_to (inject_Z m * bpow e) (inject_Z m * bpow e).
Proof.
  intros Hm He. exists (Zdigits2 m + e), m, loc_Exact.
  pose proof (Zdigits2_spec m Hm) as [Hlo Hhi].
  pose proof (Zdigits2_pos m Hm) as Hd. pose proof (bpow_pos e) as Hp.
  rewrite <- He. split; [split|split].
  - rewrite (bpow_split (Zdigits2 m + e - 1) e) by lia.
    replace (Zdigits2 m + e - 1 - e) with (Zdigits2 m - 1) by lia.
    rewrite Zle_Qle in Hlo. nra.
  - rewrite (bpow_split (Zdigits2 m + e) e) by lia.
    replace (Zdigits2 m + e - e) with (Zdigits2 m) by lia.
    rewrite Zlt_Qlt in Hhi. nra.
  - cbn [inb]. field. lra.
  - reflexivity.
Qed.

(** Every positive rational lies in one binade. *)
Lemma mag_exists (x : Q) : (0 < x)%Q -> exists k, (bpow (k - 1) <= x)%Q /\ (x < bpow k)%Q.
Proof.
  intros Hx. destruct x as [a b].
  assert (Ha : 0 < a) by (unfold Qlt in Hx; cbn in Hx; lia).
  pose proof (Zdigits2_spec a Ha) as [Ha1 Ha2].
  pose proof (Zdigits2_spec (Z.pos b) ltac:(lia)) as [Hb1 Hb2].
  pose proof (Zdigits2_pos a Ha). pose proof (Zdigits2_pos (Z.pos b) ltac:(lia)).
  set (da := Zdigits2 a) in *. set (db := Zdigits2 (Z.pos b)) in *.
  assert (Hab : ((a # b) == inject_Z a / inject_Z (Z.pos b))%Q) by apply Qmake_Qdiv.
  assert (Hbp : (0 < inject_Z (Z.pos b))%Q) by (rewrite <- (Zlt_Qlt 0); lia).
  rewrite Zle_Qle in Ha1, Hb1. rewrite Zlt_Qlt in Ha2, Hb2.
  rewrite <- !bpow_Z in * by lia.
  assert (Hlo : (bpow (da - db - 1) <= (a # b))%Q).
  { rewrite Hab. apply Qle_shift_div_l; [exact Hbp|].
    apply Qle_trans with (bpow (da - db - 1) * bpow db)%Q.
    - pose proof (bpow_pos (da - db - 1)). nra.
    - rewrite <- bpow_add. replace (da - db - 1 + db) with (da - 1) by lia. exact Ha1. }
  assert (Hhi : ((a # b) < bpow (da - db + 1))%Q).
  { rewrite Hab. apply Qlt_shift_div_r; [exact Hbp|].
    apply Qlt_le_trans with (bpow da); [exact Ha2|].
    apply Qle_trans with (bpow (da - db + 1) * bpow (db - 1))%Q.
    - rewrite <- bpow_add. replace (da - db + 1 + (db - 1)) with da by lia. lra.
    - pose proof (bpow_pos (da - db + 1)). nra. }
  destruct (Qlt_le_dec (a # b) (bpow (da - db))) as [Hlt|Hge].
  - exists (da - db). split; assumption.
  - exists (da - db + 1). split; [|assumption].
    replace (da - db + 1 - 1) with (da - db) by lia. assumption.
Qed.

Lemma shr_nonpos (r : shr_record) (e n : Z) : n <= 0 -> shr r e n = (r, e).
Proof. destruct n; [reflexivity|lia|reflexivity]. Qed.

(** *** The rounding step of the arithmetic operations *)

Lemma pow2_pos (n : Z) : 0 <= n -> 0 < 2 ^ n.
Proof. intros. apply Z.pow_pos_nonneg; lia. Qed.

Lemma renorm (M E k : Z) :
  0 < M -> E = fexp k ->
  (E <= k -> M <= 2 ^ (k - E)) ->
  (E < k -> 2 ^ (k - 1 - E) <= M) ->
  (k <= E -> M = 1) ->
  let re := shr (shr_record_of_loc M loc_Exact) E (fexp (Zdigits2 M + E) - E) in
  0 < shr_m (fst re)
  /\ (inject_Z (shr_m (fst re)) * bpow (snd re) == inject_Z M * bpow E)%Q
  /\ (emax - prec < snd re -> (bpow emax <= inject_Z M * bpow E)%Q).
Proof.
  intros HM HE Hhi Hlo H1 re. subst re.
  pose proof (Zdigits2_spec M HM) as [Hd1 Hd2]. pose proof (Zdigits2_pos M HM) as Hd0.
  destruct (Z_le_gt_dec k E) as [HkE|HkE].
  - (* below the smallest binade *)
    specialize (H1 HkE). subst M. cbn [Zdigits2 digits2_pos].
    rewrite shr_nonpos by (fconst; lia). cbn [fst snd shr_m shr_record_of_loc].
    split; [lia|]. split; [reflexivity|]. intros Hov. fconst. lia.
  - specialize (Hhi ltac:(lia)). specialize (Hlo ltac:(lia)).
    assert (HEk : E = k - prec \/ (E = emin /\ k - prec <= emin)) by (fconst; lia).
    destruct (Z.eq_dec M (2 ^ (k - E))) as [Heq|Hne].
    + (* the mantissa was rounded up to the next power of two *)
      assert (Hd : Zdigits2 M = k - E + 1).
      { apply Zdigits2_unique; [|exact HM].
        replace (k - E + 1 - 1) with (k - E) by lia.
        rewrite Z.pow_add_r, Heq by lia. lia. }
      assert (Hy : (inject_Z M * bpow E == bpow k)%Q).
      { rewrite (bpow_split k E) by lia. now rewrite Heq. }
      rewrite Hd. replace (k - E + 1 + E) with (k + 1) by lia.
      destruct (Z_le_gt_dec (fexp (k + 1) - E) 0) as [Hn|Hn].
      * rewrite shr_nonpos by exact Hn. cbn [fst snd]. rewrite shr_m_record_of_loc.
        split; [exact HM|]. split; [reflexivity|]. intros Hov. rewrite Hy.
        apply bpow_le. fconst. lia.
      * assert (Hn1 : fexp (k + 1) - E = 1) by (fconst; lia).
        rewrite Hn1.
        assert (Hex : inb M loc_Exact (inject_Z M * bpow E / bpow E)).
        { cbn [inb]. pose proof (bpow_pos E). field. lra. }
        destruct (shr_inb M loc_Exact _ E 1 ltac:(lia) ltac:(lia) Hex) as (He & _ & Hm).
        rewrite He, Hm. change (2 ^ 1) with 2.
        assert (Hk1 : 1 <= k - E) by (fconst; lia).
        assert (HM2 : M / 2 = 2 ^ (k - E - 1)).
        { rewrite Heq. replace (k - E) with (Z.succ (k - E - 1)) at 1 by lia.
          rewrite Z.pow_succ_r by lia. rewrite Z.mul_comm, Z.div_mul; lia. }
        rewrite HM2. split; [apply pow2_pos; lia|]. split.
        -- rewrite Hy. rewrite (bpow_split k (E + 1)) by lia.
           replace (k - (E + 1)) with (k - E - 1) by lia. reflexivity.
        -- intros Hov. rewrite Hy. apply bpow_le. fconst. lia.
    + assert (HMlt : M < 2 ^ (k - E)) by lia.
      assert (Hd : Zdigits2 M <= k - E).
      { destruct (Z_le_gt_dec (Zdigits2 M) (k - E)); [assumption|].
        assert (2 ^ (k - E) <= 2 ^ (Zdigits2 M - 1)) by (apply Z.pow_le_mono_r; lia).
        lia. }
      rewrite shr_nonpos by (fconst; lia). cbn [fst snd]. rewrite shr_m_record_of_loc.
      split; [exact HM|]. split; [reflexivity|]. intros Hov.
      assert (HE' : E = k - prec) by (fconst; lia).
      apply Qle_trans with (bpow (k - 1)); [apply bpow_le; fconst; lia|].
      rewrite (bpow_split (k - 1) E) by lia.
      rewrite Zle_Qle in Hlo. pose proof (bpow_pos E). nra.
Qed.

Lemma Qdiv_lt_inv (a b c : Q) : (0 < b)%Q -> (a / b < c)%Q -> (a < c * b)%Q.
Proof.
  intros Hb H. assert (E : (a == a / b * b)%Q) by (field; lra).
  rewrite E. apply Qmult_lt_compat_r; assumption.
Qed.

Lemma Qdiv_le_inv (a b c : Q) : (0 < b)%Q -> (c <= a / b)%Q -> (c * b <= a)%Q.
Proof.
  intros Hb H. assert (E : (a == a / b * b)%Q) by (field; lra).
  rewrite E. apply Qmult_le_compat_r; [assumption|lra].
Qed.

Lemma bra_spec (sx : bool) (mx ex : Z) (lx : location) (x : Q) :
  0 <= mx -> (0 < x)%Q -> inb mx lx (x / bpow ex) ->
  ex <= fexp (Zdigits2 mx + ex) ->
  exists y, rounds_to x y /\ SFrounded sx (bra sx mx ex lx) y.
Proof.
  intros Hmx Hx Hin Hex.
  set (E := fexp (Zdigits2 mx + ex)) in *.
  destruct (shr_inb mx lx x ex (E - ex) Hmx ltac:(lia) Hin) as (He1 & Hin1 & Hm1).
  unfold binary_round_aux, shr_fexp. fold E.
  destruct (shr (shr_record_of_loc mx lx) ex (E - ex)) as [r1 e1].
  cbn [fst snd] in He1, Hin1, Hm1. subst e1.
  replace (ex + (E - ex)) with E in * by lia.
  set (m1 := shr_m r1) in *. set (l1 := loc_of_shr_record r1) in *.
  set (M := rne m1 l1).
  pose proof (bpow_pos ex) as Hpex. pose proof (bpow_pos E) as HpE.
  pose proof (inb_bounds _ _ _ Hin) as [Bx1 Bx2].
  pose proof (inb_bounds _ _ _ Hin1) as [B1 B2].
  assert (Hm1nn : 0 <= m1) by (rewrite Hm1; apply Z.div_pos; [lia|apply pow2_pos; lia]).
  (* the binade of x *)
  assert (Hk : exists k, ((bpow (k - 1) <= x)%Q /\ (x < bpow k)%Q) /\ fexp k = E).
  { destruct (Z.eq_dec mx 0) as [H0|H0].
    - destruct (mag_exists x Hx) as (k & Hk1 & Hk2). exists k. split; [auto|].
      subst mx. cbn [Zdigits2] in E. change (inject_Z 0 + 1)%Q with 1%Q in Bx2.
      assert (Hxe : (x < bpow ex)%Q).
      { apply Qdiv_lt_inv in Bx2; [|exact Hpex]. lra. }
      assert (k - 1 < ex) by (apply bpow_lt_inv; lra).
      subst E. fconst. lia.
    - assert (Hmp : 0 < mx) by lia.
      pose proof (Zdigits2_spec mx Hmp) as [Hd1 Hd2]. pose proof (Zdigits2_pos mx Hmp).
      exists (Zdigits2 mx + ex). split; [|reflexivity]. split.
      + rewrite (bpow_split (Zdigits2 mx + ex - 1) ex) by lia.
        replace (Zdigits2 mx + ex - 1 - ex) with (Zdigits2 mx - 1) by lia.
        rewrite Zle_Qle in Hd1.
        apply Qdiv_le_inv in Bx1; [|exact Hpex]. nra.
      + rewrite (bpow_split (Zdigits2 mx + ex) ex) by lia.
        replace (Zdigits2 mx + ex - ex) with (Zdigits2 mx) by lia.
        assert (Hd2' : mx + 1 <= 2 ^ Zdigits2 mx) by lia.
        rewrite Zle_Qle, inject_Z_succ in Hd2'.
        apply Qdiv_lt_inv in Bx2; [|exact Hpex]. nra. }
  destruct Hk as (k & [Hk1 Hk2] & HkE).
  exists (inject_Z M * bpow E)%Q. split.
  { exists k, m1, l1. rewrite HkE. split; [split; assumption|]. split; [exact Hin1|reflexivity]. }
  pose proof (rne_bounds m1 l1) as [HMlo HMhi]. fold M in HMlo, HMhi.
  destruct (Z.eq_dec M 0) as [HM0|HM0].
  - (* rounded to zero *)
    rewrite HM0. cbn [Zdigits2].
    rewrite shr_nonpos by (subst E; fconst; lia).
    cbn [shr_m shr_record_of_loc SFrounded]. split; [reflexivity|].
    change (inject_Z 0) with 0%Q. lra.
  - assert (HMp : 0 < M) by lia.
    (* bounds on the rounded mantissa *)
    assert (Hq1 : (bpow (k - 1) / bpow E <= x / bpow E)%Q) by now apply Qdiv_le_compat_r.
    assert (Hq2 : (x / bpow E < bpow k / bpow E)%Q) by now apply Qdiv_lt_compat_r.
    assert (Hhi : E <= k -> M <= 2 ^ (k - E)).
    { intros HEk. assert (Hlt : (inject_Z m1 < inject_Z (2 ^ (k - E)))%Q).
      { apply Qle_lt_trans with (x / bpow E)%Q; [exact B1|].
        apply Qlt_shift_div_r; [exact HpE|].
        rewrite <- (bpow_split k E) by lia. exact Hk2. }
      apply inject_Z_lt_inv in Hlt. lia. }
    assert (Hlo : E < k -> 2 ^ (k - 1 - E) <= M).
    { intros HEk. assert (Hlt : (inject_Z (2 ^ (k - 1 - E)) < inject_Z (m1 + 1))%Q).
      { rewrite inject_Z_succ.
        apply Qle_lt_trans with (x / bpow E)%Q; [|exact B2].
        apply Qle_shift_div_l; [exact HpE|].
        rewrite <- (bpow_split (k - 1) E) by lia. exact Hk1. }
      apply inject_Z_lt_inv in Hlt. lia. }
    assert (H1 : k <= E -> M = 1).
    { intros HkE'. assert (Hlt : (inject_Z m1 < inject_Z 1)%Q).
      { apply Qle_lt_trans with (x / bpow E)%Q; [exact B1|].
        apply Qlt_shift_div_r; [exact HpE|]. change (inject_Z 1) with 1%Q.
        rewrite Qmult_1_l. apply Qlt_le_trans with (bpow k); [exact Hk2|].
        now apply bpow_le. }
      apply inject_Z_lt_inv in Hlt. lia. }
    destruct (renorm M E k HMp (eq_sym HkE) Hhi Hlo H1) as (Hpos & Hval & Hov).
    destruct (shr (shr_record_of_loc M loc_Exact) E (fexp (Zdigits2 M + E) - E))
      as [r2 e2].
    cbn [fst snd] in Hpos, Hval, Hov.
    destruct (shr_m r2) as [|p|p]; [lia| |lia].
    destruct (Z.leb_spec e2 (emax - prec)) as [Hle|Hgt]; cbn [SFrounded].
    + split; [reflexivity|]. symmetry. exact Hval.
    + split; [reflexivity|]. apply Hov. lia.
Qed.

(** *** Alignment and [binary_round] *)

Lemma iter_xO (m d : positive) : Z.pos (Pos.iter xO m d) = Z.pos m * 2 ^ Z.pos d.
Proof.
  induction d as [|d IH] using Pos.peano_ind.
  - cbn [Pos.iter]. lia.
  - rewrite Pos.iter_succ, Pos2Z.inj_succ, Z.pow_succ_r by lia.
    rewrite Pos2Z.inj_xO, IH. lia.
Qed.

Lemma shl_align_spec (mx : positive) (ex ex' : Z) :
  snd (shl_align mx ex ex') = Z.min ex ex'
  /\ Z.pos (fst (shl_align mx ex ex')) = Z.pos mx * 2 ^ (ex - Z.min ex ex').
Proof.
  unfold shl_align. destruct (ex' - ex) as [|d|d] eqn:E; cbn [fst snd].
  - replace (Z.min ex ex') with ex by lia. rewrite Z.sub_diag. split; lia.
  - replace (Z.min ex ex') with ex by lia. rewrite Z.sub_diag. split; lia.
  - replace (Z.min ex ex') with ex' by lia. split; [reflexivity|].
    rewrite iter_xO. f_equal. f_equal. lia.
Qed.

Lemma Zdigits2_shift (m n : Z) : 0 < m -> 0 <= n -> Zdigits2 (m * 2 ^ n) = Zdigits2 m + n.
Proof.
  intros Hm Hn. pose proof (Zdigits2_spec m Hm) as [H1 H2].
  pose proof (Zdigits2_pos m Hm). pose proof (pow2_pos n Hn).
  apply Zdigits2_unique; [|nia].
  replace (Zdigits2 m + n - 1) with (Zdigits2 m - 1 + n) by lia.
  rewrite !Z.pow_add_r by lia. nia.
Qed.

Lemma shift_value (m a b : Z) :
  b <= a -> (inject_Z (m * 2 ^ (a - b)) * bpow b == inject_Z m * bpow a)%Q.
Proof.
  intros H. rewrite inject_Z_mult, (bpow_split a b H). ring.
Qed.

Lemma binary_round_spec (sx : bool) (mx : positive) (ex : Z) :
  exists y, rounds_to (inject_Z (Z.pos mx) * bpow ex) y
            /\ SFrounded sx (binary_round prec emax sx mx ex) y.
Proof.
  unfold binary_round.
  destruct (shl_align_spec mx ex (fexp (Z.pos (digits2_pos mx) + ex))) as [He Hm].
  destruct (shl_align mx ex (fexp (Z.pos (digits2_pos mx) + ex))) as [mz ez].
  cbn [fst snd] in He, Hm.
  assert (Hle : ez <= ex) by lia.
  assert (Hv : (inject_Z (Z.pos mz) * bpow ez == inject_Z (Z.pos mx) * bpow ex)%Q).
  { rewrite Hm, <- He. now apply shift_value. }
  apply bra_spec.
  - lia.
  - pose proof (bpow_pos ex). assert (0 < inject_Z (Z.pos mx))%Q.
    { change 0%Q with (inject_Z 0). rewrite <- Zlt_Qlt. lia. }
    nra.
  - cbn [inb]. rewrite <- Hv. pose proof (bpow_pos ez). field. lra.
  - rewrite Hm, <- He, Zdigits2_shift by lia.
    change (Zdigits2 (Z.pos mx)) with (Z.pos (digits2_pos mx)).
    replace (Z.pos (digits2_pos mx) + (ex - ez) + ez) with (Z.pos (digits2_pos mx) + ex) by lia.
    lia.
Qed.

(** *** Values and order of canonical floats *)

Lemma bounded_spec (m : positive) (e : Z) :
  bounded prec emax m e = true ->
  e = fexp (Z.pos (digits2_pos m) + e) /\ e <= emax - prec.
Proof.
  unfold bounded, canonical_mantissa. intros H.
  apply andb_prop in H as [H1 H2].
  apply Z.eqb_eq in H1. apply Z.leb_le in H2. split; [symmetry; exact H1 | exact H2].
Qed.

Lemma canonical_lt (m1 m2 : positive) (e1 e2 : Z) :
  bounded prec emax m1 e1 = true -> bounded prec emax m2 e2 = true ->
  e1 < e2 -> (inject_Z (Z.pos m1) * bpow e1 < inject_Z (Z.pos m2) * bpow e2)%Q.
Proof.
  intros B1 B2 Hlt.
  apply bounded_spec in B1 as [C1 _]. apply bounded_spec in B2 as [C2 _].
  pose proof (digits2_pos_spec m1) as [_ U1]. pose proof (digits2_pos_spec m2) as [L2 _].
  set (d1 := Z.pos (digits2_pos m1)) in *. set (d2 := Z.pos (digits2_pos m2)) in *.
  assert (Hd1 : d1 <= 53) by (fconst; lia).
  assert (Hd2 : d2 = 53) by (fconst; lia).
  rewrite Hd2 in L2. change (53 - 1) with 52 in L2.
  assert (P1 : 2 ^ d1 <= 2 ^ 53) by (apply Z.pow_le_mono_r; lia).
  assert (P2 : 2 ^ 1 <= 2 ^ (e2 - e1)) by (apply Z.pow_le_mono_r; lia).
  assert (HZ : Z.pos m1 < Z.pos m2 * 2 ^ (e2 - e1)).
  { change (2 ^ 1) with 2 in P2. change (2 ^ 53) with (2 ^ 52 * 2) in P1. nia. }
  rewrite <- (shift_value (Z.pos m2) e2 e1) by lia.
  apply Qmult_lt_compat_r; [apply bpow_pos|]. rewrite <- Zlt_Qlt. exact HZ.
Qed.

Lemma cmp_mag_spec (m1 m2 : positive) (e1 e2 : Z) :
  bounded prec emax m1 e1 = true -> bounded prec emax m2 e2 = true ->
  cmp_mag m1 e1 m2 e2
  = Qcompare (inject_Z (Z.pos m1) * bpow e1) (inject_Z (Z.pos m2) * bpow e2).
Proof.
  intros B1 B2. unfold cmp_mag. symmetry.
  destruct (Z.compare_spec e1 e2) as [He|He|He].
  - subst e2. change (Pos.compare_cont Eq m1 m2) with (Pos.compare m1 m2).
    pose proof (bpow_pos e1) as Hp.
    destruct (Pos.compare_spec m1 m2) as [Hm|Hm|Hm].
    + subst. apply Qeq_alt. reflexivity.
    + apply Qlt_alt. apply Qmult_lt_compat_r; [exact Hp|]. rewrite <- Zlt_Qlt. lia.
    + apply Qgt_alt. apply Qmult_lt_compat_r; [exact Hp|]. rewrite <- Zlt_Qlt. lia.
  - apply Qlt_alt. now apply canonical_lt.
  - apply Qgt_alt. now apply canonical_lt.
Qed.

Lemma SFval_finite_pos (m : positive) (e : Z) : (0 < inject_Z (Z.pos m) * bpow e)%Q.
Proof.
  pose proof (bpow_pos e). assert (0 < inject_Z (Z.pos m))%Q.
  { change 0%Q with (inject_Z 0). rewrite <- Zlt_Qlt. lia. }
  nra.
Qed.

Lemma SFval_nonneg (f : spec_float) : SFnonneg f -> (0 <= SFval f)%Q.
Proof.
  destruct f as [[|]|[|]| |[|] m e]; cbn; try tauto; try lra.
  intros _. pose proof (SFval_finite_pos m e). lra.
Qed.

Lemma SFleb_nonneg (x y : spec_float) :
  valid_binary x = true -> valid_binary y = true ->
  SFnonneg x -> SFnonneg y ->
  SFleb x y = true <-> (SFval x <= SFval y)%Q.
Proof.
  intros Vx Vy Nx Ny.
  destruct x as [[|]|[|]| |[|] m1 e1]; cbn in Nx; try tauto;
  destruct y as [[|]|[|]| |[|] m2 e2]; cbn in Ny; try tauto;
  unfold SFleb, SFcompare; cbn [SFval].
  - split; [lra|reflexivity].
  - pose proof (SFval_finite_pos m2 e2). split; [lra|reflexivity].
  - pose proof (SFval_finite_pos m1 e1). split; [discriminate|lra].
  - cbn in Vx, Vy. fold (cmp_mag m1 e1 m2 e2). rewrite (cmp_mag_spec _ _ _ _ Vx Vy).
    destruct (Qcompare _ _) eqn:E.
    + apply Qeq_alt in E. split; [lra|reflexivity].
    + apply Qlt_alt in E. split; [lra|reflexivity].
    + apply Qgt_alt in E. split; [discriminate|lra].
Qed.

Lemma SFltb_nonneg (x y : spec_float) :
  valid_binary x = true -> valid_binary y = true ->
  SFnonneg x -> SFnonneg y ->
  SFltb x y = true <-> (SFval x < SFval y)%Q.
Proof.
  intros Vx Vy Nx Ny.
  destruct x as [[|]|[|]| |[|] m1 e1]; cbn in Nx; try tauto;
  destruct y as [[|]|[|]| |[|] m2 e2]; cbn in Ny; try tauto;
  unfold SFltb, SFcompare; cbn [SFval].
  - split; [discriminate|lra].
  - pose proof (SFval_finite_pos m2 e2). split; [lra|reflexivity].
  - pose proof (SFval_finite_pos m1 e1). split; [discriminate|lra].
  - cbn in Vx, Vy. fold (cmp_mag m1 e1 m2 e2). rewrite (cmp_mag_spec _ _ _ _ Vx Vy).
    destruct (Qcompare _ _) eqn:E.
    + apply Qeq_alt in E. split; [discriminate|lra].
    + apply Qlt_alt in E. split; [lra|reflexivity].
    + apply Qgt_alt in E. split; [discriminate|lra].
Qed.

Lemma finite_lt_emax (m : positive) (e : Z) :
  bounded prec emax m e = true -> (inject_Z (Z.pos m) * bpow e < bpow emax)%Q.
Proof.
  intros B. apply bounded_spec in B as [C Hle].
  pose proof (digits2_pos_spec m) as [_ U]. set (d := Z.pos (digits2_pos m)) in *.
  assert (Hd : d <= 53) by (fconst; lia).
  assert (P : 2 ^ d <= 2 ^ 53) by (apply Z.pow_le_mono_r; lia).
  apply Qlt_le_trans with (inject_Z (2 ^ 53) * bpow e)%Q.
  - apply Qmult_lt_compat_r; [apply bpow_pos|]. rewrite <- Zlt_Qlt. lia.
  - rewrite <- bpow_Z by lia. rewrite <- bpow_add. apply bpow_le. fconst. lia.
Qed.

(** *** The operations on nonnegative floats *)

Lemma rounds_to_ext (x x' y : Q) : (x == x')%Q -> rounds_to x y -> rounds_to x' y.
Proof.
  intros E (k & m & l & [H1 H2] & Hin & Hy).
  exists k, m, l. split; [split; rewrite <- E; assumption|]. split; [|exact Hy].
  eapply inb_ext; [|exact Hin]. now rewrite E.
Qed.

Lemma Rnd_ext (q q' : Q) (R : spec_float) : (q == q')%Q -> Rnd q R -> Rnd q' R.
Proof.
  intros E [[H0 HR]|[Hp (y & Hr & Hs)]].
  - left. split; [lra|exact HR].
  - right. split; [lra|]. exists y. split; [|exact Hs]. now apply (rounds_to_ext q).
Qed.

Lemma Rnd_canonical (s : spec_float) :
  valid_binary s = true -> SFnonneg s -> Rnd (SFval s) s.
Proof.
  intros V N. destruct s as [[|]|[|]| |[|] m e]; cbn in N; try tauto.
  - left. split; reflexivity.
  - right. cbn [SFval]. split; [apply SFval_finite_pos|].
    exists (inject_Z (Z.pos m) * bpow e)%Q. split.
    + apply rounds_to_canonical; [lia|]. cbn in V. apply bounded_spec in V as [C _]. exact C.
    + cbn. split; reflexivity.
Qed.

Lemma Zdigits2_ge (m d : Z) : 0 < m -> 2 ^ (d - 1) <= m -> d <= Zdigits2 m.
Proof.
  intros Hm H. pose proof (Zdigits2_spec m Hm) as [_ U].
  pose proof (Zdigits2_pos m Hm).
  destruct (Z.le_gt_cases d (Zdigits2 m)) as [|Hgt]; [assumption|exfalso].
  assert (2 ^ Zdigits2 m <= 2 ^ (d - 1)) by (apply Z.pow_le_mono_r; lia).
  lia.
Qed.

Lemma SFadd_nonneg (x y : spec_float) :
  valid_binary x = true -> valid_binary y = true -> SFnonneg x -> SFnonneg y ->
  Rnd (SFval x + SFval y) (SFadd prec emax x y).
Proof.
  intros Vx Vy Nx Ny.
  destruct x as [[|]|[|]| |[|] m1 e1]; cbn in Nx; try tauto;
  destruct y as [[|]|[|]| |[|] m2 e2]; cbn in Ny; try tauto.
  - left. split; [cbn; lra|reflexivity].
  - apply (Rnd_ext (SFval (S754_finite false m2 e2))); [cbn; lra|].
    now apply Rnd_canonical.
  - apply (Rnd_ext (SFval (S754_finite false m1 e1))); [cbn; lra|].
    now apply Rnd_canonical.
  - cbn [SFadd SFval cond_Zopp].
    destruct (shl_align_spec m1 e1 (Z.min e1 e2)) as [_ H1].
    destruct (shl_align_spec m2 e2 (Z.min e1 e2)) as [_ H2].
    replace (Z.min e1 (Z.min e1 e2)) with (Z.min e1 e2) in H1 by lia.
    replace (Z.min e2 (Z.min e1 e2)) with (Z.min e1 e2) in H2 by lia.
    set (ez := Z.min e1 e2) in *.
    change (Z.pos (fst (shl_align m1 e1 ez)) + Z.pos (fst (shl_align m2 e2 ez)))
      with (Z.pos (fst (shl_align m1 e1 ez) + fst (shl_align m2 e2 ez))).
    cbn [binary_normalize].
    pose proof (SFval_finite_pos m1 e1). pose proof (SFval_finite_pos m2 e2).
    right. split; [lra|].
    destruct (binary_round_spec false (fst (shl_align m1 e1 ez) + fst (shl_align m2 e2 ez)) ez)
      as (y & Hr & Hs).
    exists y. split; [|exact Hs].
    eapply rounds_to_ext; [|exact Hr].
    rewrite Pos2Z.inj_add, H1, H2, inject_Z_plus.
    rewrite <- (shift_value (Z.pos m1) e1 ez), <- (shift_value (Z.pos m2) e2 ez) by lia.
    ring.
Qed.

Lemma SFmul_nonneg (x y : spec_float) :
  valid_binary x = true -> valid_binary y = true -> SFnonneg x -> SFnonneg y ->
  Rnd (SFval x * SFval y) (SFmul prec emax x y).
Proof.
  intros Vx Vy Nx Ny.
  destruct x as [[|]|[|]| |[|] m1 e1]; cbn in Nx; try tauto;
  destruct y as [[|]|[|]| |[|] m2 e2]; cbn in Ny; try tauto;
  try (left; split; [cbn; lra|reflexivity]).
  cbn [SFmul SFval xorb].
  pose proof (SFval_finite_pos m1 e1). pose proof (SFval_finite_pos m2 e2).
  right. split; [nra|].
  cbn in Vx, Vy. apply bounded_spec in Vx as [C1 _]. apply bounded_spec in Vy as [C2 _].
  apply bra_spec.
  - lia.
  - nra.
  - cbn [inb]. rewrite Pos2Z.inj_mul, inject_Z_mult, bpow_add.
    pose proof (bpow_pos e1). pose proof (bpow_pos e2). field. split; lra.
  - pose proof (digits2_pos_spec m1) as [L1 _]. pose proof (digits2_pos_spec m2) as [L2 _].
    set (d1 := Z.pos (digits2_pos m1)) in *. set (d2 := Z.pos (digits2_pos m2)) in *.
    assert (Hd1 : 0 < d1) by (subst d1; lia). assert (Hd2 : 0 < d2) by (subst d2; lia).
    assert (Hd : d1 + d2 - 1 <= Zdigits2 (Z.pos (m1 * m2))).
    { apply Zdigits2_ge; [lia|].
      replace (d1 + d2 - 1 - 1) with ((d1 - 1) + (d2 - 1)) by lia.
      rewrite Z.pow_add_r by lia. rewrite Pos2Z.inj_mul.
      pose proof (pow2_pos (d1 - 1) ltac:(lia)). pose proof (pow2_pos (d2 - 1) ltac:(lia)).
      nia. }
    fconst. lia.
Qed.

Lemma new_location_spec (n k : Z) :
  0 < n -> 0 <= k < n ->
  new_location n k = if Z.eqb k 0 then loc_Exact else loc_Inexact (Z.compare (2 * k) n).
Proof.
  intros Hn Hk. unfold new_location, new_location_even, new_location_odd.
  destruct (Z.even n) eqn:Ev; [reflexivity|].
  destruct (Z.eqb k 0); [reflexivity|]. f_equal.
  assert (Hne : 2 * k <> n).
  { intros E. rewrite <- E, Z.even_mul in Ev. discriminate. }
  destruct (Z.compare_spec (2 * k + 1) n), (Z.compare_spec (2 * k) n);
    try reflexivity; lia.
Qed.

Lemma inb_quotient (a b q r : Z) :
  0 < b -> a = b * q + r -> 0 <= r < b ->
  inb q (new_location b r) (inject_Z a / inject_Z b).
Proof.
  intros Hb Ha Hr. rewrite (new_location_spec b r Hb Hr).
  assert (Hbq : (0 < inject_Z b)%Q) by (change 0%Q with (inject_Z 0); rewrite <- Zlt_Qlt; lia).
  assert (E : (inject_Z a / inject_Z b == inject_Z q + inject_Z r / inject_Z b)%Q).
  { subst a. rewrite inject_Z_plus, inject_Z_mult. field. lra. }
  destruct (Z.eqb_spec r 0) as [H0|H0].
  - cbn [inb]. rewrite E, H0. change (inject_Z 0) with 0%Q. field. lra.
  - assert (Hrp : (0 < inject_Z r)%Q) by (change 0%Q with (inject_Z 0); rewrite <- Zlt_Qlt; lia).
    assert (Hrb : (inject_Z r < inject_Z b)%Q) by (rewrite <- Zlt_Qlt; lia).
    assert (F1 : (0 < inject_Z r / inject_Z b)%Q).
    { apply Qlt_shift_div_l; [exact Hbq|lra]. }
    assert (F2 : (inject_Z r / inject_Z b < 1)%Q).
    { apply Qlt_shift_div_r; [exact Hbq|lra]. }
    cbn [inb]. split; [rewrite E; split; lra|].
    destruct (Z.compare_spec (2 * r) b) as [C|C|C].
    + apply (proj1 (Qeq_alt _ _)). rewrite E.
      assert (Hb2 : (inject_Z b == 2 * inject_Z r)%Q) by (rewrite <- C, inject_Z_double; reflexivity).
      rewrite Hb2. field. lra.
    + apply (proj1 (Qlt_alt _ _)). rewrite E.
      assert (Hb2 : (2 * inject_Z r < inject_Z b)%Q) by (rewrite <- inject_Z_double, <- Zlt_Qlt; exact C).
      assert (inject_Z r / inject_Z b < 1 # 2)%Q; [|lra].
      apply Qlt_shift_div_r; [exact Hbq|lra].
    + apply (proj1 (Qgt_alt _ _)). rewrite E.
      assert (Hb2 : (inject_Z b < 2 * inject_Z r)%Q) by (rewrite <- inject_Z_double, <- Zlt_Qlt; exact C).
      assert ((1 # 2) < inject_Z r / inject_Z b)%Q; [|lra].
      apply Qlt_shift_div_l; [exact Hbq|lra].
Qed.

Lemma SFdiv_core_spec (mx my : positive) (ex ey : Z) :
  let c := SFdiv_core_binary prec emax (Z.pos mx) ex (Z.pos my) ey in
  0 <= fst (fst c)
  /\ inb (fst (fst c)) (snd c)
       (inject_Z (Z.pos mx) * bpow ex / (inject_Z (Z.pos my) * bpow ey) / bpow (snd (fst c)))
  /\ snd (fst c) <= fexp (Zdigits2 (fst (fst c)) + snd (fst c)).
Proof.
  unfold SFdiv_core_binary.
  change (Zdigits2 (Z.pos mx)) with (Z.pos (digits2_pos mx)).
  change (Zdigits2 (Z.pos my)) with (Z.pos (digits2_pos my)).
  pose proof (digits2_pos_spec mx) as [L1 U1]. pose proof (digits2_pos_spec my) as [L2 U2].
  set (d1 := Z.pos (digits2_pos mx)) in *. set (d2 := Z.pos (digits2_pos my)) in *.
  assert (Hd1 : 0 < d1) by (subst d1; lia). assert (Hd2 : 0 < d2) by (subst d2; lia).
  set (e' := Z.min (fexp (d1 + ex - (d2 + ey))) (ex - ey)).
  set (s := ex - ey - e').
  assert (Hs : 0 <= s) by (subst s e'; lia).
  set (m' := match s with Z.pos _ => Z.shiftl (Z.pos mx) s | 0 => Z.pos mx | Z.neg _ => 0 end).
  assert (Hm' : m' = Z.pos mx * 2 ^ s).
  { subst m'. destruct s as [|p|p] eqn:Es; [cbn; lia| |lia].
    apply Z.shiftl_mul_pow2. lia. }
  clearbody m'.
  pose proof (Z_div_mod m' (Z.pos my) ltac:(lia)) as Hdm.
  destruct (Z.div_eucl m' (Z.pos my)) as [q r]. destruct Hdm as [Hq Hr].
  cbn [fst snd].
  pose proof (pow2_pos s Hs) as Hps.
  assert (Hqnn : 0 <= q) by nia.
  split; [exact Hqnn|]. split.
  - eapply inb_ext; [|apply (inb_quotient m' (Z.pos my) q r); [lia|exact Hq|exact Hr]].
    rewrite Hm', inject_Z_mult, <- (bpow_Z s Hs).
    assert (Hb : (bpow ex == bpow s * bpow ey * bpow e')%Q).
    { rewrite <- !bpow_add. subst s. now replace (ex - ey - e' + ey + e') with ex by lia. }
    rewrite Hb.
    pose proof (bpow_pos ey). pose proof (bpow_pos e'). pose proof (bpow_pos s).
    assert (0 < inject_Z (Z.pos my))%Q by (change 0%Q with (inject_Z 0); rewrite <- Zlt_Qlt; lia).
    field. repeat split; lra.
  - destruct (Z.le_gt_cases e' emin) as [Hlow|Hhigh].
    + pose proof (fexp_ge_emin (Zdigits2 q + e')). lia.
    + assert (He' : e' <= d1 + ex - (d2 + ey) - prec) by (subst e'; fconst; lia).
      assert (Hds : prec <= d1 + s - d2) by (subst s; lia).
      assert (Hq52 : 2 ^ (d1 - 1 + s - d2) <= q).
      { assert (Hp : 0 < 2 ^ (d1 - 1 + s - d2)) by (apply pow2_pos; fconst; lia).
        assert (Hm2 : 2 ^ (d1 - 1 + s - d2) * 2 ^ d2 <= m').
        { rewrite <- Z.pow_add_r by (fconst; lia).
          replace (d1 - 1 + s - d2 + d2) with ((d1 - 1) + s) by lia.
          rewrite Z.pow_add_r by lia. rewrite Hm'. nia. }
        nia. }
      assert (Hqp : 0 < q).
      { pose proof (pow2_pos (d1 - 1 + s - d2) ltac:(fconst; lia)). lia. }
      assert (Hdq : d1 + s - d2 <= Zdigits2 q).
      { apply Zdigits2_ge; [exact Hqp|].
        now replace (d1 + s - d2 - 1) with (d1 - 1 + s - d2) by lia. }
      fconst. lia.
Qed.

Lemma SFdiv_nonneg (x y : spec_float) :
  valid_binary x = true -> valid_binary y = true -> SFnonneg x -> SFnonneg y ->
  (0 < SFval y)%Q ->
  Rnd (SFval x / SFval y) (SFdiv prec emax x y).
Proof.
  intros Vx Vy Nx Ny Hy.
  destruct y as [[|]|[|]| |[|] m2 e2]; cbn in Ny; try tauto; [cbn in Hy; lra|].
  destruct x as [[|]|[|]| |[|] m1 e1]; cbn in Nx; try tauto.
  - left. split; [|reflexivity]. cbn [SFval]. unfold Qdiv. ring.
  - cbn [SFdiv SFval xorb].
    pose proof (SFdiv_core_spec m1 m2 e1 e2) as Hc. cbv zeta in Hc.
    destruct (SFdiv_core_binary prec emax (Z.pos m1) e1 (Z.pos m2) e2) as [[mz ez] lz].
    cbn [fst snd] in Hc. destruct Hc as (Hnn & Hin & Hpre).
    pose proof (SFval_finite_pos m1 e1). pose proof (SFval_finite_pos m2 e2).
    assert (Hpos : (0 < inject_Z (Z.pos m1) * bpow e1 / (inject_Z (Z.pos m2) * bpow e2))%Q).
    { apply Qlt_shift_div_l; [assumption|lra]. }
    right. split; [exact Hpos|].
    now apply bra_spec.
Qed.

(** *** Consequences of monotone rounding *)

Lemma Rnd_sign (q : Q) (R : spec_float) :
  Rnd q R -> SFnonneg R \/ R = S754_infinity false.
Proof.
  intros [[_ ->]|[_ (y & _ & Hs)]]; [left; exact I|].
  destruct R as [s|s| |s m e]; cbn [SFrounded] in Hs; try tauto; destruct Hs as [-> _].
  - left; exact I.
  - right; reflexivity.
  - left; exact I.
Qed.

Lemma Rnd_mono (q1 q2 : Q) (R1 R2 : spec_float) :
  Rnd q1 R1 -> Rnd q2 R2 -> (q1 <= q2)%Q ->
  valid_binary R2 = true -> SFnonneg R2 ->
  SFnonneg R1 /\ (SFval R1 <= SFval R2)%Q.
Proof.
  intros H1 H2 Hq V2 N2. pose proof (SFval_nonneg R2 N2) as Hv2.
  destruct H1 as [[_ ->]|[Hp1 (y1 & Hr1 & Hs1)]]; [split; [exact I|exact Hv2]|].
  destruct H2 as [[Hz2 _]|[Hp2 (y2 & Hr2 & Hs2)]]; [lra|].
  pose proof (rounds_to_mono _ _ _ _ Hr1 Hr2 Hq) as Hy.
  pose proof (bpow_pos emax) as Hpe.
  assert (Hy2 : (y2 == SFval R2)%Q /\ (y2 < bpow emax)%Q).
  { destruct R2 as [[|]|[|]| |[|] m2 e2]; cbn in N2; try tauto; cbn [SFrounded] in Hs2; destruct Hs2 as [_ E].
    - split; [rewrite E; reflexivity|lra].
    - split; [exact E|]. rewrite E. apply finite_lt_emax. exact V2. }
  destruct Hy2 as [E2 Hlt2].
  destruct R1 as [s|s| |s m e]; cbn [SFrounded] in Hs1; try tauto; destruct Hs1 as [-> E1].
  - split; [exact I|]. cbn [SFval]. lra.
  - lra.
  - split; [exact I|]. cbn [SFval]. lra.
Qed.

Lemma Rnd_le (q : Q) (R c : spec_float) :
  Rnd q R -> valid_binary c = true -> SFnonneg c -> (q <= SFval c)%Q ->
  SFnonneg R /\ (SFval R <= SFval c)%Q.
Proof.
  intros HR Vc Nc Hq. apply (Rnd_mono q (SFval c) R c); auto. now apply Rnd_canonical.
Qed.

Lemma finite_le_max (m : positive) (e : Z) :
  bounded prec emax m e = true -> (inject_Z (Z.pos m) * bpow e <= SFval SFmax)%Q.
Proof.
  intros B. apply bounded_spec in B as [C Hle].
  pose proof (digits2_pos_spec m) as [_ U]. set (d := Z.pos (digits2_pos m)) in *.
  assert (Hd : d <= 53) by (fconst; lia).
  assert (P : 2 ^ d <= 2 ^ 53) by (apply Z.pow_le_mono_r; lia).
  assert (Hm : Z.pos m <= Z.pos max_mantissa).
  { change (Z.pos max_mantissa) with (2 ^ 53 - 1). lia. }
  cbn [SFval SFmax].
  assert (He : (bpow e <= bpow 971)%Q) by (apply bpow_le; fconst; lia).
  rewrite Zle_Qle in Hm. pose proof (bpow_pos e).
  assert (0 < inject_Z (Z.pos m))%Q by (change 0%Q with (inject_Z 0); rewrite <- Zlt_Qlt; lia).
  nra.
Qed.

Lemma SFval_le_max (x : spec_float) :
  valid_binary x = true -> SFnonneg x -> (SFval x <= SFval SFmax)%Q.
Proof.
  intros V N. destruct x as [[|]|[|]| |[|] m e]; cbn in N; try tauto.
  - cbn [SFval SFmax]. pose proof (SFval_finite_pos max_mantissa 971). lra.
  - now apply finite_le_max.
Qed.

Lemma Rnd_max (q : Q) (R : spec_float) :
  Rnd q R -> (q <= SFval SFmax + (1 # 2))%Q -> SFnonneg R.
Proof.
  intros HR Hq.
  destruct (Qlt_le_dec (SFval SFmax) q) as [Hbig|Hsmall].
  2:{ apply (Rnd_le q R SFmax HR); [reflexivity|exact I|exact Hsmall]. }
  destruct HR as [[_ ->]|[Hp (y & (k & m & l & [Hk1 Hk2] & Hin & Hy) & Hs)]]; [exact I|].
  cbn [SFval SFmax] in Hbig, Hq.
  assert (M1 : (bpow 1023 <= inject_Z (Z.pos max_mantissa) * bpow 971)%Q).
  { rewrite (bpow_split 1023 971) by lia. apply Qmult_le_compat_r; [|pose proof (bpow_pos 971); lra].
    rewrite <- Zle_Qle. vm_compute. discriminate. }
  assert (M2 : (inject_Z (Z.pos max_mantissa) * bpow 971 + 1 == bpow 1024 - (bpow 971 - 1))%Q).
  { rewrite (bpow_split 1024 971) by lia.
    change (2 ^ (1024 - 971)) with (Z.pos max_mantissa + 1). rewrite inject_Z_succ. ring. }
  assert (B971 : (2 <= bpow 971)%Q).
  { rewrite <- bpow_1. apply bpow_le. lia. }
  assert (Hk : k = 1024).
  { assert (1023 < k) by (apply bpow_lt_inv; lra).
    assert (k - 1 < 1024) by (apply bpow_lt_inv; lra). lia. }
  subst k. change (fexp 1024) with 971 in Hin, Hy.
  pose proof (bpow_pos 971) as Hp971.
  pose proof (inb_bounds _ _ _ Hin) as [B1 B2].
  assert (Q1 : (inject_Z (Z.pos max_mantissa) < q / bpow 971)%Q).
  { apply Qlt_shift_div_l; [exact Hp971|exact Hbig]. }
  assert (Q2 : (q / bpow 971 < inject_Z (Z.pos max_mantissa) + (1 # 2))%Q).
  { apply Qlt_shift_div_r; [exact Hp971|]. nra. }
  assert (Hm : m = Z.pos max_mantissa).
  { assert (L : (inject_Z m < inject_Z (Z.pos max_mantissa + 1))%Q) by (rewrite inject_Z_succ; lra).
    assert (U : (inject_Z (Z.pos max_mantissa) < inject_Z (m + 1))%Q) by (rewrite inject_Z_succ; lra).
    apply inject_Z_lt_inv in L, U. lia. }
  subst m.
  assert (Hr : rne (Z.pos max_mantissa) l = Z.pos max_mantissa).
  { destruct l as [|c]; [reflexivity|]. cbn [inb] in Hin. destruct Hin as [_ Hc].
    assert (Hlt : Qcompare (q / bpow 971) (inject_Z (Z.pos max_mantissa) + (1 # 2)) = Lt)
      by (apply (proj1 (Qlt_alt _ _)); exact Q2).
    rewrite Hlt in Hc. subst c. reflexivity. }
  rewrite Hr in Hy.
  assert (Hylt : (y < bpow emax)%Q).
  { rewrite Hy. apply (finite_lt_emax max_mantissa 971). reflexivity. }
  destruct R as [s|s| |s m e]; cbn [SFrounded] in Hs; try tauto; destruct Hs as [-> E]; try exact I.
  lra.
Qed.

(** *** The sign of a difference *)

Lemma Qcompare_scale (a b : Z) (c : Q) :
  (0 < c)%Q -> Qcompare (inject_Z a * c) (inject_Z b * c) = Z.compare a b.
Proof.
  intros Hc. destruct (Z.compare_spec a b) as [E|L|G].
  - subst. apply (proj1 (Qeq_alt _ _)). reflexivity.
  - apply (proj1 (Qlt_alt _ _)). apply Qmult_lt_compat_r; [exact Hc|]. now rewrite <- Zlt_Qlt.
  - apply (proj1 (Qgt_alt _ _)). apply Qmult_lt_compat_r; [exact Hc|]. now rewrite <- Zlt_Qlt.
Qed.

Lemma aligned_value (m : positive) (e ez : Z) :
  ez <= e ->
  (inject_Z (Z.pos (fst (shl_align m e ez))) * bpow ez == inject_Z (Z.pos m) * bpow e)%Q.
Proof.
  intros Hle. destruct (shl_align_spec m e ez) as [_ Hm].
  replace (Z.min e ez) with ez in Hm by lia.
  rewrite Hm. now apply shift_value.
Qed.

Lemma cmp_mag_aligned (mx my : positive) (ex ey : Z) :
  bounded prec emax mx ex = true -> bounded prec emax my ey = true ->
  cmp_mag mx ex my ey
  = Z.compare (Z.pos (fst (shl_align mx ex (Z.min ex ey))))
              (Z.pos (fst (shl_align my ey (Z.min ex ey)))).
Proof.
  intros Bx By. rewrite (cmp_mag_spec _ _ _ _ Bx By).
  rewrite <- (Qcompare_scale _ _ (bpow (Z.min ex ey)) (bpow_pos _)).
  pose proof (aligned_value mx ex (Z.min ex ey) ltac:(lia)) as Ex.
  pose proof (aligned_value my ey (Z.min ex ey) ltac:(lia)) as Ey.
  now rewrite Ex, Ey.
Qed.

(** The comparison of two finite floats is the comparison of their
    aligned signed mantissas. *)
Lemma SFcompare_aligned (sx sy : bool) (mx my : positive) (ex ey : Z) :
  bounded prec emax mx ex = true -> bounded prec emax my ey = true ->
  SFcompare (S754_finite sx mx ex) (S754_finite sy my ey)
  = Some (Z.compare (cond_Zopp sx (Z.pos (fst (shl_align mx ex (Z.min ex ey)))))
                    (cond_Zopp sy (Z.pos (fst (shl_align my ey (Z.min ex ey)))))).
Proof.
  intros Bx By. pose proof (cmp_mag_aligned mx my ex ey Bx By) as Hc.
  unfold cmp_mag in Hc. cbn [SFcompare]. f_equal.
  destruct sx, sy; cbn [cond_Zopp].
  - rewrite Z.compare_opp, (Z.compare_antisym (Z.pos (fst (shl_align mx ex (Z.min ex ey))))), <- Hc.
    destruct (Z.compare ex ey); reflexivity.
  - reflexivity.
  - reflexivity.
  - exact Hc.
Qed.

Lemma binary_round_negative (m : positive) (e : Z) :
  SFltb (S754_zero false) (binary_round prec emax true m e) = false.
Proof.
  destruct (binary_round_spec true m e) as (y & _ & Hs).
  destruct (binary_round prec emax true m e) as [s|s| |s m' e'];
    cbn [SFrounded] in Hs; try tauto; destruct Hs as [-> _]; reflexivity.
Qed.

Lemma binary_round_positive (m : positive) (e : Z) :
  emin <= e -> SFpositive (binary_round prec emax false m e).
Proof.
  intros He. destruct (binary_round_spec false m e) as (y & Hr & Hs).
  assert (Hy : (bpow emin <= y)%Q).
  { assert (Hc : rounds_to (inject_Z 1 * bpow emin) (inject_Z 1 * bpow emin))
      by (apply rounds_to_canonical; [lia|reflexivity]).
    assert (Hle : (inject_Z 1 * bpow emin <= inject_Z (Z.pos m) * bpow e)%Q).
    { assert (inject_Z 1 <= inject_Z (Z.pos m))%Q by (rewrite <- Zle_Qle; lia).
      pose proof (bpow_le emin e He). pose proof (bpow_pos emin).
      change (inject_Z 1) with 1%Q in *. nra. }
    pose proof (rounds_to_mono _ _ _ _ Hc Hr Hle) as H.
    change (inject_Z 1) with 1%Q in H. lra. }
  pose proof (bpow_pos emin).
  destruct (binary_round prec emax false m e) as [s|s| |s m' e'];
    cbn [SFrounded] in Hs; try tauto; destruct Hs as [-> E]; try exact I.
  lra.
Qed.

Lemma bounded_emin (m : positive) (e : Z) : bounded prec emax m e = true -> emin <= e.
Proof.
  intros B. apply bounded_spec in B as [C _]. rewrite C. apply fexp_ge_emin.
Qed.

(** [x - y] is not above zero when [x <= y]. *)
Lemma SFsub_not_positive (x y : spec_float) :
  valid_binary x = true -> valid_binary y = true ->
  SFleb x y = true -> SFltb (S754_zero false) (SFsub prec emax x y) = false.
Proof.
  intros Vx Vy.
  destruct x as [sx|sx| |sx mx ex]; destruct y as [sy|sy| |sy my ey];
    try (special_values; (reflexivity || easy)).
  cbn in Vx, Vy. unfold SFleb. rewrite (SFcompare_aligned _ _ _ _ _ _ Vx Vy).
  cbn [SFsub]. cbv zeta.
  set (a := cond_Zopp sx _). set (b := cond_Zopp sy _).
  intros Hle.
  destruct (a - b) as [|p|p] eqn:E; cbn [binary_normalize].
  - reflexivity.
  - exfalso. destruct (Z.compare_spec a b); try discriminate; lia.
  - apply binary_round_negative.
Qed.

(** [x - y] is above zero when [y < x]. *)
Lemma SFsub_positive (x y : spec_float) :
  valid_binary x = true -> valid_binary y = true ->
  SFltb y x = true -> SFpositive (SFsub prec emax x y).
Proof.
  intros Vx Vy.
  destruct x as [sx|sx| |sx mx ex]; destruct y as [sy|sy| |sy my ey];
    try (special_values; (exact I || easy)).
  cbn in Vx, Vy. unfold SFltb. rewrite (SFcompare_aligned _ _ _ _ _ _ Vy Vx).
  cbn [SFsub]. cbv zeta. rewrite (Z.min_comm ey ex).
  set (a := cond_Zopp sx _). set (b := cond_Zopp sy _).
  intros Hlt.
  assert (Hab : 0 < a - b) by (destruct (Z.compare_spec b a); try discriminate; lia).
  destruct (a - b) as [|p|p]; try lia. cbn [binary_normalize].
  apply binary_round_positive.
  apply bounded_emin in Vx, Vy. lia.
Qed.

(** *** The order of the numbers that are not NaN *)

Lemma SFcompare_antisym (x y : spec_float) :
  SFcompare y x = option_map CompOpp (SFcompare x y).
Proof.
  destruct x as [sx|sx| |sx mx ex]; destruct y as [sy|sy| |sy my ey];
    try (repeat match goal with s : bool |- _ => destruct s end; reflexivity).
  cbn [SFcompare option_map]. f_equal.
  rewrite (Z.compare_antisym ex ey).
  change (Pos.compare_cont Eq my mx) with (Pos.compare my mx).
  change (Pos.compare_cont Eq mx my) with (Pos.compare mx my).
  rewrite (Pos.compare_antisym mx my).
  destruct sx, sy; cbn; try reflexivity;
    destruct (Z.compare ex ey); cbn; try reflexivity;
    destruct (Pos.compare mx my); reflexivity.
Qed.

(** Two numbers that are not NaN compare one way or the other. *)
Lemma SFltb_false_leb (x y : spec_float) :
  SFnan x = false -> SFnan y = false -> SFltb x y = false -> SFleb y x = true.
Proof.
  intros Nx Ny. unfold SFltb, SFleb. rewrite (SFcompare_antisym x y).
  destruct (SFcompare x y) as [[| |]|] eqn:E; cbn; try easy.
  destruct x, y; cbn in *; try discriminate;
    repeat match goal with s : bool |- _ => destruct s end; discriminate.
Qed.

Lemma SFltb_leb_false (x y : spec_float) : SFltb x y = true -> SFleb y x = false.
Proof.
  unfold SFltb, SFleb. rewrite (SFcompare_antisym x y).
  destruct (SFcompare x y) as [[| |]|]; cbn; easy.
Qed.

Lemma SFltb_not_nan (x y : spec_float) :
  SFltb x y = true -> SFnan x = false /\ SFnan y = false.
Proof. destruct x, y; cbn; try easy; destruct s; easy. Qed.

Lemma cmp_mag_leb_trans (m1 m2 m3 : positive) (e1 e2 e3 : Z) :
  bounded prec emax m1 e1 = true -> bounded prec emax m2 e2 = true ->
  bounded prec emax m3 e3 = true ->
  cmp_mag m1 e1 m2 e2 <> Gt -> cmp_mag m2 e2 m3 e3 <> Gt -> cmp_mag m1 e1 m3 e3 <> Gt.
Proof.
  intros B1 B2 B3. rewrite !cmp_mag_spec by assumption.
  intros H12 H23 H13. apply (proj2 (Qgt_alt _ _)) in H13.
  destruct (Qcompare _ _) eqn:E12 in H12; [apply Qeq_alt in E12|apply Qlt_alt in E12|easy];
    (destruct (Qcompare _ _) eqn:E23 in H23; [apply Qeq_alt in E23|apply Qlt_alt in E23|easy]);
    lra.
Qed.

Lemma SFcompare_finite (s1 s2 : bool) (m1 m2 : positive) (e1 e2 : Z) :
  SFcompare (S754_finite s1 m1 e1) (S754_finite s2 m2 e2)
  = Some match s1, s2 with
         | true, false => Lt
         | false, true => Gt
         | false, false => cmp_mag m1 e1 m2 e2
         | true, true => CompOpp (cmp_mag m1 e1 m2 e2)
         end.
Proof.
  destruct s1, s2; cbn [SFcompare]; unfold cmp_mag; try reflexivity.
  destruct (Z.compare e1 e2); reflexivity.
Qed.

Lemma SFleb_trans (x y z : spec_float) :
  valid_binary x = true -> valid_binary y = true -> valid_binary z = true ->
  SFleb x y = true -> SFleb y z = true -> SFleb x z = true.
Proof.
  destruct x as [sx|sx| |sx mx ex], y as [sy|sy| |sy my ey], z as [sz|sz| |sz mz ez];
    try solve [intros _ _ _;
               repeat match goal with s : bool |- _ => destruct s end; cbn; easy].
  cbn [valid_binary]. intros Bx By Bz. unfold SFleb. rewrite !SFcompare_finite.
  pose proof (cmp_mag_leb_trans mx my mz ex ey ez Bx By Bz) as Hpos.
  pose proof (cmp_mag_leb_trans mz my mx ez ey ex Bz By Bx) as Hneg.
  rewrite !cmp_mag_spec in * by assumption.
  rewrite <- (Qcompare_antisym (inject_Z (Z.pos mx) * bpow ex)) in Hneg.
  rewrite <- (Qcompare_antisym (inject_Z (Z.pos my) * bpow ey)
                               (inject_Z (Z.pos mz) * bpow ez)) in Hneg.
  rewrite <- (Qcompare_antisym (inject_Z (Z.pos mx) * bpow ex)
                               (inject_Z (Z.pos mz) * bpow ez)) in Hneg.
  destruct sx, sy, sz; try easy;
    destruct (Qcompare (inject_Z (Z.pos mx) * bpow ex) (inject_Z (Z.pos my) * bpow ey));
    destruct (Qcompare (inject_Z (Z.pos my) * bpow ey) (inject_Z (Z.pos mz) * bpow ez));
    destruct (Qcompare (inject_Z (Z.pos mx) * bpow ex) (inject_Z (Z.pos mz) * bpow ez));
    cbn in *; try easy; exfalso; (now apply Hpos) || (now apply Hneg).
Qed.

End Rounding.

(* ===================================================================== *)
(** ** Binary64 arithmetic                                                *)
(* ===================================================================== *)

Section Binary64.
Local Open Scope float_scope.
Implicit Types (self : HealthLP float) (m : HealthMetric float).

(** The decimal literals of the source, as binary64 numbers. *)
Lemma float_literals :
  lit 0.0 = 0 /\ lit 1.0 = 1 /\ lit 8.0 = 8 /\ lit 100.0 = 100
  /\ lit 0.5 = 0x1p-1 /\ lit 0.3 = 0x1.3333333333333p-2
  /\ lit 0.7 = 0x1.6666666666666p-1 /\ lit 0.99 = 0x1.fae147ae147aep-1
  /\ lit 7.857 = 0x1.f6d916872b021p+2.
Proof. repeat split. Qed.

Lemma float_ltb_leb (x y : float) : (x <? y) = true -> (x <=? y) = true.
Proof.
  rewrite ltb_spec, leb_spec. unfold SFltb, SFleb.
  destruct (SFcompare _ _) as [[]|]; congruence.
Qed.

(** A value of the unit interval is a number between 0 and 1, so not a
    NaN. *)
Lemma in_unit_interval_float (x : float) :
  in_unit_interval x -> (0 <=? x) = true /\ (x <=? 1) = true.
Proof.
  intros [-> | [-> | [H0 H1]]]; [split; reflexivity..|].
  split; apply float_ltb_leb; assumption.
Qed.

(** In binary64 too, the score of a metric is a number between 0 and 1. *)
Lemma metric_score_range_float m :
  (0 <=? metric_score m) = true /\ (metric_score m <=? 1) = true.
Proof.
  unfold metric_score.
  destruct (ngtb _ _).
  - destruct (is_flagged m).
    + destruct (nltb _ _); split; reflexivity.
    + apply in_unit_interval_float, clamped_normalized_in_unit_interval.
  - destruct (is_flagged m); split; reflexivity.
Qed.

(** C6.  Target 8.0 hours and the seven nights of 7.857 hours: the debt
    of the week is 1.0009999999999986 hours, within a thousandth of one
    hour and above the default threshold 0.99, so the "Sleep Debt" metric
    (category "Sleep", lower threshold 0.0, upper threshold 0.99) is
    flagged.  And whenever the debt of a period is exactly 1.0 hour, the
    metric with the default threshold is flagged. *)
Theorem sleep_debt_scenario_flagged :
  let self : HealthLP float := week_of_short_nights in
  let start_date := timedelta 0 in
  let end_date := timedelta 6 in
  let debt := result (calculate_sleep_debt start_date end_date) self in
  let m := result (get_sleep_debt_metric start_date end_date
                                         default_max_acceptable_debt) self in
  (target_sleep_hours self = 8
   /\ map sleep_duration_hours (in_period start_date end_date (sleep_history self))
      = repeat (lit 7.857) 7
   /\ map date (sleep_history self) = map timedelta [0; 1; 2; 3; 4; 5; 6]%Z)
  /\ (debt = 0x1.004189374bc64p+0
      /\ (1 <=? debt) = true /\ (debt <=? 1 + lit 0.001) = true
      /\ (lit 0.99 <? debt) = true)
  /\ (name m = "Sleep Debt" /\ category m = "Sleep"
      /\ value m = debt
      /\ lower_threshold m = 0 /\ upper_threshold m = lit 0.99
      /\ is_flagged m = true)
  /\ (forall self' s e,
        result (calculate_sleep_debt s e) self' = 1 ->
        is_flagged (result (get_sleep_debt_metric s e default_max_acceptable_debt) self')
        = true).
Proof.
  intros self start_date end_date debt m.
  split; [|split; [|split]].
  - repeat split.
  - vm_compute. repeat split.
  - vm_compute. repeat split.
  - intros self' s e Hdebt.
    rewrite result_get_sleep_debt_metric. cbn [check_flag snd is_flagged].
    unfold out_of_range. cbn [value lower_threshold upper_threshold].
    rewrite Hdebt. reflexivity.
Qed.

End Binary64.

(* ===================================================================== *)
(** ** Binary64 arithmetic: the sums and the quotient of the model        *)
(* ===================================================================== *)

Section Binary64Sums.
Local Open Scope float_scope.
Implicit Types (self : HealthLP float) (m : HealthMetric float) (x y : float).

Lemma fval_nonneg x : fnonneg x -> (0 <= fval x)%Q.
Proof. apply SFval_nonneg. Qed.

Lemma fadd_Rnd x y : fnonneg x -> fnonneg y -> Rnd (fval x + fval y) (Prim2SF (x + y)).
Proof. intros. rewrite add_spec. apply SFadd_nonneg; auto using Prim2SF_valid. Qed.

Lemma fmul_Rnd x y : fnonneg x -> fnonneg y -> Rnd (fval x * fval y) (Prim2SF (x * y)).
Proof. intros. rewrite mul_spec. apply SFmul_nonneg; auto using Prim2SF_valid. Qed.

Lemma fdiv_Rnd x y :
  fnonneg x -> fnonneg y -> (0 < fval y)%Q -> Rnd (fval x / fval y) (Prim2SF (x / y)).
Proof. intros. rewrite div_spec. apply SFdiv_nonneg; auto using Prim2SF_valid. Qed.

Lemma fleb_nonneg x y :
  fnonneg x -> fnonneg y -> (x <=? y) = true <-> (fval x <= fval y)%Q.
Proof. intros. rewrite leb_spec. apply SFleb_nonneg; auto using Prim2SF_valid. Qed.

Lemma fltb_nonneg x y :
  fnonneg x -> fnonneg y -> (x <? y) = true <-> (fval x < fval y)%Q.
Proof. intros. rewrite ltb_spec. apply SFltb_nonneg; auto using Prim2SF_valid. Qed.

Lemma fRnd_le (q : Q) x c :
  Rnd q (Prim2SF x) -> fnonneg c -> (q <= fval c)%Q -> fnonneg x /\ (fval x <= fval c)%Q.
Proof. intros HR Nc Hq. apply (Rnd_le q _ _ HR (Prim2SF_valid c) Nc Hq). Qed.

Lemma fRnd_mono (q1 q2 : Q) x1 x2 :
  Rnd q1 (Prim2SF x1) -> Rnd q2 (Prim2SF x2) -> (q1 <= q2)%Q -> fnonneg x2 ->
  fnonneg x1 /\ (fval x1 <= fval x2)%Q.
Proof. intros H1 H2 Hq N2. apply (Rnd_mono q1 q2 _ _ H1 H2 Hq (Prim2SF_valid x2) N2). Qed.

(** The literals the score is computed with. *)
Lemma fval_0 : fnonneg 0 /\ (fval 0 == 0)%Q.
Proof. split; [exact I|reflexivity]. Qed.

Lemma fval_1 : fnonneg 1 /\ (fval 1 == 1)%Q.
Proof. split; [exact I|vm_compute; reflexivity]. Qed.

Lemma fval_100 : fnonneg 100 /\ (fval 100 == 100)%Q.
Proof. split; [exact I|vm_compute; reflexivity]. Qed.

Lemma float_pos_cases x :
  (0 <? x) = true -> SFpositive (Prim2SF x).
Proof.
  rewrite ltb_spec. change (Prim2SF 0) with (S754_zero false).
  destruct (Prim2SF x) as [[|]|[|]| |[|] m e]; cbn; easy.
Qed.

Lemma unit_float x : in_unit_interval x -> fnonneg x /\ (fval x <= 1)%Q.
Proof.
  intros [-> | [-> | [H0 H1]]].
  - split; [exact I|vm_compute; discriminate].
  - split; [exact I|vm_compute; discriminate].
  - assert (N : fnonneg x).
    { apply float_pos_cases in H0. change (nltb x (lit 1.0)) with (x <? 1) in H1.
      rewrite ltb_spec in H1. unfold fnonneg.
      destruct (Prim2SF x) as [[|]|[|]| |[|] m e]; cbn in H0; try tauto; try exact I.
      cbn in H1. discriminate. }
    split; [exact N|].
    change (nltb x (lit 1.0)) with (x <? 1) in H1.
    apply (fltb_nonneg x 1 N (proj1 fval_1)) in H1.
    pose proof (proj2 fval_1). lra.
Qed.

Lemma metric_score_unit m :
  fnonneg (metric_score m) /\ (fval (metric_score m) <= 1)%Q.
Proof.
  unfold metric_score.
  destruct (ngtb _ _).
  - destruct (is_flagged m).
    + destruct (nltb _ _); (split; [exact I|vm_compute; discriminate]).
    + apply unit_float, clamped_normalized_in_unit_interval.
  - destruct (is_flagged m); cbn [negb]; (split; [exact I|vm_compute; discriminate]).
Qed.

Lemma metric_weight_half m :
  fnonneg (metric_weight m) /\ (fval (metric_weight m) <= 1 # 2)%Q.
Proof.
  destruct (metric_weight_cases m) as [-> | [-> | ->]];
    (split; [exact I|vm_compute; discriminate]).
Qed.

Lemma score_step_totals acc m : totals_ok acc -> totals_ok (score_step acc m).
Proof.
  destruct acc as [ts tw]. intros (Nts & Ntw & Hle). cbn [fst snd] in *.
  unfold score_step, totals_ok. cbn [fst snd].
  change (@nadd float _) with PrimFloat.add. change (@nmul float _) with PrimFloat.mul.
  destruct (metric_score_unit m) as [Ns Hs]. destruct (metric_weight_half m) as [Nw Hw].
  set (s := metric_score m) in *. set (w := metric_weight m) in *.
  pose proof (fval_nonneg s Ns) as Hs0. pose proof (fval_nonneg w Nw) as Hw0.
  pose proof (fval_nonneg ts Nts) as Hts0. pose proof (fval_nonneg tw Ntw) as Htw0.
  (* the weighted score *)
  destruct (fRnd_le _ (s * w) w (fmul_Rnd s w Ns Nw) Nw ltac:(nra)) as [Np Hp].
  (* the weight total does not overflow *)
  assert (Ntw' : fnonneg (tw + w)).
  { apply (Rnd_max (fval tw + fval w)); [now apply fadd_Rnd|].
    pose proof (SFval_le_max (Prim2SF tw) (Prim2SF_valid tw) Ntw). unfold fval in *. lra. }
  destruct (fRnd_mono _ _ (ts + s * w) (tw + w)
              (fadd_Rnd ts (s * w) Nts Np) (fadd_Rnd tw w Ntw Nw) ltac:(lra) Ntw')
    as [Nts' Hle'].
  auto.
Qed.

Lemma fold_score_step_totals (ms : list (HealthMetric float)) acc :
  totals_ok acc -> totals_ok (fold_left score_step ms acc).
Proof.
  revert acc. induction ms as [|m ms IH]; intros acc Hacc; [exact Hacc|].
  cbn [fold_left]. apply IH, score_step_totals, Hacc.
Qed.

(** C4.  In binary64, the arithmetic of Python's [float], the health score
    of every model state is a number between 0 and 100, both included
    (so never a NaN or an infinity); and for every number type the score
    of a model without metrics is the literal [100.0]. *)
Theorem health_score_range :
  (forall self : HealthLP float,
      (0 <=? result optimize_health_score self) = true
      /\ (result optimize_health_score self <=? 100) = true)
  /\ (forall (F : Type) (N : Number F) (target : F) (history : list (SleepData F)),
        result optimize_health_score
               {| target_sleep_hours := target; metrics := [];
                  sleep_history := history |}
        = lit 100.0).
Proof.
  split; [|reflexivity].
  intros self. unfold optimize_health_score.
  rewrite result_bind, result_gets, after_gets.
  destruct (metrics self) as [|m ms] eqn:Hms; [split; reflexivity|].
  assert (H0 : totals_ok (lit 0.0, lit 0.0)).
  { split; [exact I|]. split; [exact I|]. cbn [fst snd]. lra. }
  pose proof (fold_score_step_totals (m :: ms) _ H0) as Hb.
  destruct (fold_left score_step (m :: ms) (lit 0.0, lit 0.0)) as [ts tw].
  destruct Hb as (Nts & Ntw & Hle). cbn [fst snd] in *.
  destruct (neqb tw (lit 0)) eqn:Hz; unfold result, ret; cbn [fst]; [split; reflexivity|].
  change (@nmul float _) with PrimFloat.mul. change (@ndiv float _) with PrimFloat.div.
  change (lit 100.0) with 100.
  assert (Htw : (0 < fval tw)%Q).
  { change (neqb tw (lit 0)) with (tw =? 0) in Hz. rewrite FloatAxioms.eqb_spec in Hz.
    unfold fnonneg, fval in *.
    destruct (Prim2SF tw) as [[|]|[|]| |[|] mw ew]; cbn in Ntw; try tauto.
    - cbn in Hz. discriminate.
    - apply SFval_finite_pos. }
  pose proof (fval_nonneg ts Nts) as Hts0.
  destruct fval_1 as [N1 V1]. destruct fval_100 as [N100 V100]. destruct fval_0 as [N0 V0].
  assert (Hq : (fval ts / fval tw <= fval 1)%Q).
  { rewrite V1. apply Qle_shift_div_r; [exact Htw|lra]. }
  destruct (fRnd_le _ (ts / tw) 1 (fdiv_Rnd ts tw Nts Ntw Htw) N1 Hq) as [Nq Hq1].
  pose proof (fval_nonneg _ Nq) as Hq0.
  destruct (fRnd_le _ (ts / tw * 100) 100 (fmul_Rnd _ 100 Nq N100) N100 ltac:(nra))
    as [Nr Hr].
  split.
  - apply fleb_nonneg; [exact N0|exact Nr|]. pose proof (fval_nonneg _ Nr). lra.
  - apply fleb_nonneg; [exact Nr|exact N100|exact Hr].
Qed.

(** *** The sleep debt *)

Lemma fnonneg_inf_0 : fnonneg_inf 0.
Proof. left. exact I. Qed.

Lemma fnonneg_inf_leb x : fnonneg_inf x -> (0 <=? x) = true.
Proof.
  rewrite leb_spec. change (Prim2SF 0) with (S754_zero false). unfold fnonneg_inf.
  intros [N|E]; [|rewrite E; reflexivity].
  destruct (Prim2SF x) as [[|]|[|]| |[|] m e]; cbn in N; try tauto; reflexivity.
Qed.

Lemma fnonneg_inf_ltb x : fnonneg_inf x -> (x <? 0) = false.
Proof.
  rewrite ltb_spec. change (Prim2SF 0) with (S754_zero false). unfold fnonneg_inf.
  intros [N|E]; [|rewrite E; reflexivity].
  destruct (Prim2SF x) as [[|]|[|]| |[|] m e]; cbn in N; try tauto; reflexivity.
Qed.

(** Adding [0.0] to a running total leaves it as it is. *)
Lemma fadd_0_r x : fnonneg_inf x -> x + 0 = x.
Proof.
  intros Hx. apply Prim2SF_inj. rewrite add_spec.
  change (Prim2SF 0) with (S754_zero false). unfold fnonneg_inf in Hx.
  destruct Hx as [N|E]; [|rewrite E; reflexivity].
  destruct (Prim2SF x) as [[|]|[|]| |[|] m e]; cbn in N; try tauto; reflexivity.
Qed.

(** Adding a deficit above zero keeps a running total in its class. *)
Lemma fadd_positive x d : fnonneg_inf x -> (0 <? d) = true -> fnonneg_inf (x + d).
Proof.
  intros Hx Hd. apply float_pos_cases in Hd. unfold fnonneg_inf in *.
  rewrite add_spec.
  pose proof (Prim2SF_valid x) as Vx. pose proof (Prim2SF_valid d) as Vd.
  assert (Cx : match Prim2SF x with
               | S754_zero false | S754_finite false _ _ | S754_infinity false => True
               | _ => False
               end).
  { destruct Hx as [N|E]; [|now rewrite E].
    destruct (Prim2SF x) as [[|]|[|]| |[|] m e]; cbn in N; tauto. }
  clear Hx.
  destruct (Prim2SF x) as [[|]|[|]| |[|] m e]; try tauto;
    destruct (Prim2SF d) as [[|]|[|]| |[|] md ed]; cbn in Hd; try tauto;
    try (left; exact I); try (right; reflexivity).
  apply (Rnd_sign (SFval (S754_finite false m e) + SFval (S754_finite false md ed))).
  apply SFadd_nonneg; auto; exact I.
Qed.

Lemma debt_step_class (target total : float) (r : SleepData float) :
  fnonneg_inf total -> fnonneg_inf (debt_step target total r).
Proof.
  intros Ht. unfold debt_step. cbv zeta.
  destruct (ngtb _ _) eqn:Hd; [|exact Ht].
  apply fadd_positive; [exact Ht|exact Hd].
Qed.

Lemma debt_step_deficit (target total : float) (r : SleepData float) :
  fnonneg_inf total -> debt_step target total r = total + deficit target r.
Proof.
  intros Ht. unfold debt_step, deficit, py_max. cbv zeta.
  destruct (ngtb _ _); [reflexivity|]. symmetry. now apply fadd_0_r.
Qed.

Lemma fold_debt_step_class (target : float) (l : list (SleepData float)) (total : float) :
  fnonneg_inf total -> fnonneg_inf (fold_left (debt_step target) l total).
Proof.
  revert total. induction l as [|r l IH]; intros total Ht; [exact Ht|].
  cbn [fold_left]. apply IH, debt_step_class, Ht.
Qed.

Lemma fold_debt_step_sum (target : float) (l : list (SleepData float)) (total : float) :
  fnonneg_inf total ->
  fold_left (debt_step target) l total
  = fold_left PrimFloat.add (map (deficit target) l) total.
Proof.
  revert total. induction l as [|r l IH]; intros total Ht; [reflexivity|].
  cbn [fold_left map]. rewrite <- (debt_step_deficit target total r Ht).
  apply IH, debt_step_class, Ht.
Qed.

Lemma sleep_debt_class self (s e : datetime) :
  fnonneg_inf (result (calculate_sleep_debt s e) self).
Proof. rewrite result_calculate_sleep_debt. apply fold_debt_step_class, fnonneg_inf_0. Qed.

(** A night that meets the target has no deficit above zero. *)
Lemma deficit_met (target : float) (r : SleepData float) :
  (target <=? sleep_duration_hours r) = true ->
  ngtb (nsub target (sleep_duration_hours r)) (lit 0) = false.
Proof.
  intros Hle. change ((0 <? target - sleep_duration_hours r) = false).
  rewrite ltb_spec, sub_spec. rewrite leb_spec in Hle.
  change (Prim2SF 0) with (S754_zero false).
  apply SFsub_not_positive; auto using Prim2SF_valid.
Qed.

(** C2.  In binary64, the sleep debt of a period is the sum, accumulated
    from [0.0] in the order of the history, of
    [max(0, target_sleep_hours - duration)] over the records dated within
    the period (both ends included), and over these records only.  So it
    is never below zero (and never a NaN), a record whose duration is at
    least the target leaves the running total as it is, its term of the
    sum being [0.0], and the debt of a period without records is [0.0]. *)
Theorem sleep_debt_is_sum_of_deficits self (start_date end_date : datetime) :
  let debt := result (calculate_sleep_debt start_date end_date) self in
  debt = sleep_debt_spec self start_date end_date
  /\ (0 <=? debt) = true
  /\ (forall r, r ∈ in_period start_date end_date (sleep_history self)
                <-> r ∈ sleep_history self /\ (start_date <= date r <= end_date)%Z)
  /\ (forall total r,
        (target_sleep_hours self <=? sleep_duration_hours r) = true ->
        debt_step (target_sleep_hours self) total r = total
        /\ deficit (target_sleep_hours self) r = 0)
  /\ (in_period start_date end_date (sleep_history self) = [] -> debt = 0).
Proof.
  intros debt. split; [|split; [|split; [|split]]].
  - subst debt. rewrite result_calculate_sleep_debt. unfold sleep_debt_spec, running_sum.
    apply fold_debt_step_sum, fnonneg_inf_0.
  - apply fnonneg_inf_leb, sleep_debt_class.
  - intros r. unfold in_period. rewrite list_elem_of_filter. tauto.
  - intros total r Hr. apply deficit_met in Hr.
    unfold debt_step, deficit, py_max. cbv zeta. rewrite Hr. split; reflexivity.
  - subst debt. rewrite result_calculate_sleep_debt. unfold in_period. intros ->. reflexivity.
Qed.

(** The "Sleep Debt" metric is flagged exactly when the debt exceeds
    [max_acceptable_debt]: in binary64 too the debt is never below the
    lower threshold 0.0, so that half of the flag test never fires. *)
Theorem sleep_debt_metric_flag self (s e : datetime) (max_acceptable_debt : float) :
  let m := result (get_sleep_debt_metric s e max_acceptable_debt) self in
  nltb (value m) (lower_threshold m) = false
  /\ is_flagged m = (max_acceptable_debt <? result (calculate_sleep_debt s e) self).
Proof.
  intros m. subst m. rewrite result_get_sleep_debt_metric.
  cbn [snd check_flag is_flagged value lower_threshold]. unfold out_of_range, ngtb.
  cbn [value lower_threshold upper_threshold].
  assert (Hlow : nltb (result (calculate_sleep_debt s e) self) (lit 0.0) = false)
    by apply fnonneg_inf_ltb, sleep_debt_class.
  rewrite Hlow. split; reflexivity.
Qed.

(** Under [upper_threshold > lower_threshold] the divisor of the
    normalization is above zero: the subtraction of two different numbers
    does not round to zero, so the quotient that [optimize_health_score]
    takes is never a division by zero. *)
Theorem normalized_divisor_not_zero m :
  ngtb (upper_threshold m) (lower_threshold m) = true ->
  (0 <? upper_threshold m - lower_threshold m) = true
  /\ (upper_threshold m - lower_threshold m =? 0) = false.
Proof.
  intros Hgt. change ((lower_threshold m <? upper_threshold m) = true) in Hgt.
  rewrite ltb_spec in Hgt.
  pose proof (SFsub_positive _ _ (Prim2SF_valid (upper_threshold m))
                (Prim2SF_valid (lower_threshold m)) Hgt) as Hpos.
  rewrite ltb_spec, FloatAxioms.eqb_spec, sub_spec. unfold SF64sub.
  change (Prim2SF 0) with (S754_zero false).
  destruct (SFsub _ _ _ _) as [[|]|[|]| |[|] md ed]; cbn in Hpos; try tauto;
    split; reflexivity.
Qed.

(** *** The order of running totals *)

Lemma fleb_inf x y : fnonneg_inf x -> Prim2SF y = S754_infinity false -> (x <=? y) = true.
Proof.
  intros Hx Ey. rewrite leb_spec, Ey. destruct Hx as [N|E]; [|rewrite E; reflexivity].
  destruct (Prim2SF x) as [[|]|[|]| |[|] m e]; cbn in N; try tauto; reflexivity.
Qed.

Lemma fleb_finite x y : fnonneg_inf x -> fnonneg y -> (x <=? y) = true -> fnonneg x.
Proof.
  intros [N|E] Ny Hle; [exact N|]. rewrite leb_spec, E in Hle. unfold fnonneg in Ny.
  destruct (Prim2SF y) as [[|]|[|]| |[|] m e]; cbn in Ny; try tauto; discriminate.
Qed.

Lemma fleb_refl x : fnonneg_inf x -> (x <=? x) = true.
Proof.
  intros [N|E]; [|now apply fleb_inf; [right|]].
  apply fleb_nonneg; auto. lra.
Qed.

Lemma fleb_trans x y z :
  fnonneg_inf x -> fnonneg_inf y -> fnonneg_inf z ->
  (x <=? y) = true -> (y <=? z) = true -> (x <=? z) = true.
Proof.
  intros Hx Hy [Nz|Ez] Hxy Hyz; [|now apply fleb_inf].
  pose proof (fleb_finite y z Hy Nz Hyz) as Ny.
  pose proof (fleb_finite x y Hx Ny Hxy) as Nx.
  apply fleb_nonneg in Hxy, Hyz; auto. apply fleb_nonneg; auto. lra.
Qed.

(** The operands of a finite sum are finite. *)
Lemma fadd_finite x d :
  fnonneg_inf x -> (0 <? d) = true -> fnonneg (x + d) -> fnonneg x /\ fnonneg d.
Proof.
  intros Hx Hd. apply float_pos_cases in Hd. unfold fnonneg. rewrite add_spec.
  destruct Hx as [N|E].
  - unfold fnonneg in N.
    destruct (Prim2SF x) as [[|]|[|]| |[|] m e]; cbn in N; try tauto;
      destruct (Prim2SF d) as [[|]|[|]| |[|] md ed]; cbn in Hd; try tauto;
      cbn [SFadd SFnonneg]; tauto.
  - rewrite E.
    destruct (Prim2SF d) as [[|]|[|]| |[|] md ed]; cbn in Hd; try tauto;
      cbn [SFadd SFnonneg]; tauto.
Qed.

Lemma fadd_mono x y d :
  fnonneg_inf x -> fnonneg_inf y -> (0 <? d) = true ->
  (x <=? y) = true -> (x + d <=? y + d) = true.
Proof.
  intros Hx Hy Hd Hle.
  destruct (fadd_positive y d Hy Hd) as [N|E];
    [|apply fleb_inf; [now apply fadd_positive|exact E]].
  destruct (fadd_finite y d Hy Hd N) as [Ny Nd].
  pose proof (fleb_finite x y Hx Ny Hle) as Nx.
  apply fleb_nonneg in Hle; auto.
  destruct (fRnd_mono _ _ (x + d) (y + d) (fadd_Rnd x d Nx Nd) (fadd_Rnd y d Ny Nd)
              ltac:(lra) N) as [N' Hv].
  now apply fleb_nonneg.
Qed.

Lemma fadd_inflationary x d :
  fnonneg_inf x -> (0 <? d) = true -> (x <=? x + d) = true.
Proof.
  intros Hx Hd.
  destruct (fadd_positive x d Hx Hd) as [N|E]; [|now apply fleb_inf].
  destruct (fadd_finite x d Hx Hd N) as [Nx Nd].
  pose proof (fval_nonneg d Nd).
  destruct (fRnd_mono _ _ x (x + d) (Rnd_canonical _ (Prim2SF_valid x) Nx)
              (fadd_Rnd x d Nx Nd) ltac:(unfold fval in *; lra) N) as [_ Hv].
  now apply fleb_nonneg.
Qed.

Lemma debt_step_mono (target a b : float) (r : SleepData float) :
  fnonneg_inf a -> fnonneg_inf b -> (a <=? b) = true ->
  (debt_step target a r <=? debt_step target b r) = true.
Proof.
  intros Ha Hb Hle. unfold debt_step. cbv zeta.
  destruct (ngtb _ _) eqn:Hd; [|exact Hle]. now apply fadd_mono.
Qed.

Lemma debt_step_inflationary (target a : float) (r : SleepData float) :
  fnonneg_inf a -> (a <=? debt_step target a r) = true.
Proof.
  intros Ha. unfold debt_step. cbv zeta.
  destruct (ngtb _ _) eqn:Hd; [|now apply fleb_refl]. now apply fadd_inflationary.
Qed.

Lemma fold_debt_step_mono (target : float) (l : list (SleepData float)) (a b : float) :
  fnonneg_inf a -> fnonneg_inf b -> (a <=? b) = true ->
  (fold_left (debt_step target) l a <=? fold_left (debt_step target) l b) = true.
Proof.
  revert a b. induction l as [|r l IH]; intros a b Ha Hb Hle; [exact Hle|].
  cbn [fold_left]. apply IH; auto using debt_step_class, debt_step_mono.
Qed.

Lemma fold_debt_step_sublist (target : float) (l1 l2 : list (SleepData float)) :
  sublist l1 l2 ->
  forall a, fnonneg_inf a ->
  (fold_left (debt_step target) l1 a <=? fold_left (debt_step target) l2 a) = true.
Proof.
  induction 1 as [|r l1 l2 Hsub IH|r l1 l2 Hsub IH]; intros a Ha.
  - now apply fleb_refl.
  - cbn [fold_left]. apply IH, debt_step_class, Ha.
  - cbn [fold_left].
    apply (fleb_trans _ (fold_left (debt_step target) l2 a));
      auto using fold_debt_step_class, debt_step_class.
    apply fold_debt_step_mono; auto using debt_step_class, debt_step_inflationary.
Qed.

Lemma in_period_sublist (s e s' e' : datetime) (l : list (SleepData float)) :
  (s' <= s)%Z -> (e <= e')%Z -> sublist (in_period s e l) (in_period s' e' l).
Proof.
  intros Hs He. unfold in_period. induction l as [|r l IH]; [constructor|].
  rewrite !filter_cons.
  destruct (decide (s <= date r <= e)%Z), (decide (s' <= date r <= e')%Z);
    first [lia | exact IH | constructor; exact IH].
Qed.

(** A wider period never has a smaller debt, in binary64: every addition
    of the loop rounds monotonically. *)
Theorem sleep_debt_monotone self (s e s' e' : datetime) :
  (s' <= s)%Z -> (e <= e')%Z ->
  (result (calculate_sleep_debt s e) self <=? result (calculate_sleep_debt s' e') self)
  = true.
Proof.
  intros Hs He. rewrite !result_calculate_sleep_debt.
  apply fold_debt_step_sublist; [|exact fnonneg_inf_0].
  now apply in_period_sublist.
Qed.

End Binary64Sums.

(* ===================================================================== *)
(** ** The properties on concrete models                                  *)
(* ===================================================================== *)

Section Instances.

(** The degenerate range: every value is flagged or scores 1.0. *)
Lemma metric_score_degenerate {F : Type} `{Number F} (m : HealthMetric F) :
  ngtb (upper_threshold m) (lower_threshold m) = false ->
  metric_score m = if is_flagged m then lit 0.5 else lit 1.0.
Proof.
  intros Hrange. unfold metric_score. rewrite Hrange.
  now destruct (is_flagged m).
Qed.

(** A flagged metric that scores 0.5: with both thresholds at 10, the
    value 5 is flagged, and the score is neither 0.3 nor 0.7, in binary64
    as in exact arithmetic; the health score of the model is 50. *)
Lemma flagged_metric_scores_half :
  (let m : HealthMetric float := degenerate_metric in
   metrics degenerate_model = [m]
   /\ is_flagged m = true
   /\ metric_score m = lit 0.5
   /\ neqb (metric_score m) (lit 0.3) = false
   /\ neqb (metric_score m) (lit 0.7) = false
   /\ result optimize_health_score degenerate_model = 50%float)
  /\ (let m : HealthMetric Q := degenerate_metric in
      metrics degenerate_model = [m]
      /\ is_flagged m = true
      /\ metric_score m = lit 0.5
      /\ ~ (metric_score m == 0.3 \/ metric_score m == 0.7)%Q
      /\ (result optimize_health_score degenerate_model == 50)%Q).
Proof.
  split.
  - repeat split.
  - split; [reflexivity|]. split; [reflexivity|]. split; [reflexivity|].
    split; [|reflexivity].
    intros [Heq|Heq]; vm_compute in Heq; discriminate.
Qed.

(** The step count of [main.py]: 8500 against [10000, 20000] is flagged,
    normalizes to -0.15, clamps to 0, and scores 0.3. *)
Lemma metric_score_cases_steps :
  let m : HealthMetric float := steps_metric in
  ngtb (upper_threshold m) (lower_threshold m) = true
  /\ is_flagged m = true
  /\ clamped_normalized m = lit 0.0
  /\ metric_score m = lit 0.3.
Proof.
  intros m.
  assert (Hrange : ngtb (upper_threshold m) (lower_threshold m) = true)
    by reflexivity.
  assert (Hflag : is_flagged m = true) by reflexivity.
  destruct (metric_score_cases m Hrange) as (Hflagged & _ & _).
  destruct (Hflagged Hflag) as [Hscore _].
  split; [exact Hrange|]. split; [exact Hflag|]. split; [reflexivity|].
  rewrite Hscore. reflexivity.
Defined.

(** The report of [main.py] on the sample model: no "Sleep Debt" metric
    before, one after, at the end of the list. *)
Lemma generate_report_upserts_sample :
  let self : HealthLP float := sample_model in
  let m := result (get_sleep_debt_metric (timedelta 0) (timedelta 6)
                                         default_max_acceptable_debt) self in
  (length (sleep_debt_metrics (metrics self)) <= 1)%nat
  /\ sleep_debt_metrics (metrics (after sample_report self)) = [m]
  /\ metrics (after sample_report self) = metrics self ++ [m].
Proof.
  intros self m.
  assert (Hone : (length (sleep_debt_metrics (metrics self)) <= 1)%nat)
    by (vm_compute; lia).
  destruct (generate_report_upserts self "example@email.com" (timedelta 16)
              (timedelta 0) (timedelta 6) None None Hone)
    as (Hval & _ & _ & Habsent & _).
  split; [exact Hone|]. split; [exact Hval|].
  apply Habsent. reflexivity.
Defined.

(** The metrics of the sample model keep their places through a report. *)
Lemma generate_report_frame_sample :
  let self : HealthLP float := sample_model in
  metrics self !! 1%nat = Some steps_metric
  /\ metrics (after sample_report self) !! 1%nat = Some steps_metric
  /\ sleep_history (after sample_report self) = sleep_history self.
Proof.
  intros self.
  destruct (generate_report_frame self "example@email.com" (timedelta 16)
              (timedelta 0) (timedelta 6) None None)
    as (Hhist & _ & _ & Hkeep).
  split; [reflexivity|]. split; [|exact Hhist].
  apply Hkeep. split; [reflexivity|]. discriminate.
Defined.

(** The week of short nights: the debt is the sum of seven deficits,
    1.0009999999999986 hours; and a night of nine hours leaves a running
    total as it is. *)
Lemma sleep_debt_week_sum :
  let self : HealthLP float := week_of_short_nights in
  result (calculate_sleep_debt (timedelta 0) (timedelta 6)) self
  = sleep_debt_spec self (timedelta 0) (timedelta 6)
  /\ sleep_debt_spec self (timedelta 0) (timedelta 6) = 0x1.004189374bc64p+0%float
  /\ debt_step (target_sleep_hours self) 1%float
               {| date := timedelta 7; sleep_duration_hours := 9%float;
                  sleep_quality_score := 70%float; sleep_efficiency := 85%float |}
     = 1%float.
Proof.
  intros self.
  destruct (sleep_debt_is_sum_of_deficits self (timedelta 0) (timedelta 6))
    as (Hsum & _ & _ & Hmet & _).
  split; [exact Hsum|]. split; [reflexivity|].
  apply Hmet. reflexivity.
Defined.

(** One night of seven hours against a target of eight: a debt of
    exactly 1.0 hour, flagged. *)
Lemma one_hour_of_debt_flagged :
  let self : HealthLP float := one_hour_short in
  result (calculate_sleep_debt (timedelta 0) (timedelta 0)) self = 1%float
  /\ is_flagged (result (get_sleep_debt_metric (timedelta 0) (timedelta 0)
                                               default_max_acceptable_debt) self)
     = true.
Proof.
  intros self.
  assert (Hdebt : result (calculate_sleep_debt (timedelta 0) (timedelta 0)) self
                  = 1%float) by reflexivity.
  split; [exact Hdebt|].
  exact (proj2 (proj2 (proj2 sleep_debt_scenario_flagged)) self _ _ Hdebt).
Defined.

End Instances.

(* ===================================================================== *)
(** ** Further properties: the flagged metrics by category               *)
(* ===================================================================== *)

Section FlaggedByCategory.
Context {F : Type} `{Number F}.
Implicit Types (self : HealthLP F) (m : HealthMetric F) (ms : list (HealthMetric F))
  (d : flagged_dict F) (k : string).

(** One iteration of the loop of [evaluate_all_metrics]. *)
Lemma result_evaluate_all_metrics_snoc (target : F) history ms m :
  result evaluate_all_metrics
         {| target_sleep_hours := target; metrics := ms ++ [m]; sleep_history := history |}
  = let d := result evaluate_all_metrics
                    {| target_sleep_hours := target; metrics := ms;
                       sleep_history := history |} in
    if is_flagged m then dict_append (category m) m d else d.
Proof.
  unfold evaluate_all_metrics. rewrite !result_bind, !result_gets, !result_ret.
  cbn [metrics]. now rewrite fold_left_app.
Qed.

Lemma dict_get_append_eq k m d :
  dict_get k (dict_append k m d) = Some (default [] (dict_get k d) ++ [m]).
Proof.
  induction d as [|[k' g] d IH]; cbn.
  - now rewrite decide_True.
  - destruct (decide (k' = k)) as [->|Hne]; cbn.
    + now rewrite decide_True.
    + now rewrite decide_False.
Qed.

Lemma dict_get_append_ne k k' m d :
  k <> k' -> dict_get k' (dict_append k m d) = dict_get k' d.
Proof.
  intros Hne. induction d as [|[k0 g] d IH]; cbn.
  - now rewrite decide_False.
  - destruct (decide (k0 = k)) as [->|Hne0]; cbn.
    + now rewrite !decide_False.
    + destruct (decide (k0 = k')); [reflexivity|exact IH].
Qed.

Lemma dict_keys_append k m d :
  dict_keys (dict_append k m d)
  = if decide (k ∈ dict_keys d) then dict_keys d else dict_keys d ++ [k].
Proof.
  unfold dict_keys. induction d as [|[k' g] d IH]; cbn.
  - rewrite decide_False; [reflexivity|]. apply not_elem_of_nil.
  - destruct (decide (k' = k)) as [->|Hne]; cbn.
    + rewrite decide_True; [reflexivity|]. apply list_elem_of_here.
    + rewrite IH. destruct (decide (k ∈ map fst d)) as [Hin|Hin].
      * rewrite decide_True; [reflexivity|]. now apply list_elem_of_further.
      * rewrite decide_False; [reflexivity|].
        rewrite elem_of_cons. intros [->|Hk]; [now apply Hne|now apply Hin].
Qed.

Lemma dict_size_append k m d : dict_size (dict_append k m d) = S (dict_size d).
Proof.
  unfold dict_size. induction d as [|[k' g] d IH]; cbn; [reflexivity|].
  destruct (decide (k' = k)); cbn.
  - rewrite length_app. cbn. lia.
  - rewrite IH. lia.
Qed.

Lemma dict_get_elem k (g : list (HealthMetric F)) d :
  NoDup (dict_keys d) -> (k, g) ∈ d -> dict_get k d = Some g.
Proof.
  unfold dict_keys. induction d as [|[k' g'] d IH]; intros Hnd Hin.
  - now apply elem_of_nil in Hin.
  - cbn in *. apply NoDup_cons in Hnd as [Hk' Hnd].
    apply elem_of_cons in Hin as [Heq|Hin].
    + inversion Heq; subst. now rewrite decide_True.
    + destruct (decide (k' = k)) as [->|Hne]; [|now apply IH].
      exfalso. apply Hk'. apply list_elem_of_fmap. now exists (k, g).
Qed.

(** *** First occurrences *)

Lemma elem_of_first_seen (x : string) (l : list string) : x ∈ first_seen l <-> x ∈ l.
Proof.
  induction l as [|y l IH]; cbn; [reflexivity|].
  rewrite !elem_of_cons, list_elem_of_filter, IH.
  destruct (decide (x = y)); tauto.
Qed.

Lemma NoDup_first_seen (l : list string) : NoDup (first_seen l).
Proof.
  induction l as [|y l IH]; cbn; [constructor|].
  apply NoDup_cons. split.
  - rewrite list_elem_of_filter. tauto.
  - now apply NoDup_filter.
Qed.

Lemma first_seen_snoc (l : list string) (x : string) :
  first_seen (l ++ [x]) = if decide (x ∈ l) then first_seen l else first_seen l ++ [x].
Proof.
  induction l as [|y l IH]; cbn.
  - rewrite decide_False; [reflexivity|]. apply not_elem_of_nil.
  - rewrite IH. destruct (decide (x = y)) as [->|Hne].
    + rewrite (decide_True (P := y ∈ y :: l)) by apply list_elem_of_here.
      destruct (decide (y ∈ l)); [reflexivity|].
      rewrite filter_app, filter_cons, decide_False by tauto.
      cbn. now rewrite app_nil_r.
    + destruct (decide (x ∈ l)) as [Hin|Hin].
      * rewrite decide_True; [reflexivity|]. now apply list_elem_of_further.
      * rewrite decide_False.
        -- rewrite filter_app, filter_cons, decide_True by exact Hne. reflexivity.
        -- rewrite elem_of_cons. tauto.
Qed.

(** *** The store, one metric more *)

Lemma flagged_metrics_snoc ms m :
  flagged_metrics (ms ++ [m])
  = flagged_metrics ms ++ (if is_flagged m then [m] else []).
Proof.
  unfold flagged_metrics. rewrite filter_app, filter_cons.
  destruct (is_flagged m); [rewrite decide_True by reflexivity|
                            rewrite decide_False by discriminate]; reflexivity.
Qed.

Lemma flagged_in_snoc k ms m :
  flagged_in k (ms ++ [m])
  = flagged_in k ms
    ++ (if is_flagged m then if decide (category m = k) then [m] else [] else []).
Proof.
  unfold flagged_in. rewrite filter_app, filter_cons.
  destruct (is_flagged m).
  - destruct (decide (category m = k)) as [Hk|Hk].
    + rewrite decide_True by tauto. reflexivity.
    + rewrite decide_False by tauto. reflexivity.
  - rewrite decide_False; [reflexivity|]. intros [Hf _]. discriminate.
Qed.

Lemma evaluate_all_metrics_ind (P : list (HealthMetric F) -> flagged_dict F -> Prop) :
  P [] [] ->
  (forall ms m d, P ms d ->
     P (ms ++ [m]) (if is_flagged m then dict_append (category m) m d else d)) ->
  forall self, P (metrics self) (result evaluate_all_metrics self).
Proof.
  intros Hnil Hsnoc [target ms history]. cbn [metrics].
  induction ms as [|m ms IH] using rev_ind; [exact Hnil|].
  rewrite result_evaluate_all_metrics_snoc. now apply Hsnoc.
Qed.

Lemma dict_keys_evaluate_all_metrics self :
  dict_keys (result evaluate_all_metrics self)
  = first_seen (map category (flagged_metrics (metrics self))).
Proof.
  apply (evaluate_all_metrics_ind
           (fun ms d => dict_keys d = first_seen (map category (flagged_metrics ms))));
    [reflexivity|].
  intros ms m d IH. rewrite flagged_metrics_snoc.
  destruct (is_flagged m); [|now rewrite app_nil_r].
  rewrite dict_keys_append, map_app. cbn [map]. rewrite first_seen_snoc, IH.
  destruct (decide (category m ∈ map category (flagged_metrics ms))) as [Hin|Hin].
  - rewrite decide_True; [reflexivity|]. now apply elem_of_first_seen.
  - rewrite decide_False; [reflexivity|]. now rewrite elem_of_first_seen.
Qed.

Lemma NoDup_dict_keys_evaluate_all_metrics self :
  NoDup (dict_keys (result evaluate_all_metrics self)).
Proof. rewrite dict_keys_evaluate_all_metrics. apply NoDup_first_seen. Qed.

(** The keys of the dictionary are the categories of the flagged metrics,
    each once, in the order in which the store first shows a flagged
    metric of the category. *)
Theorem evaluate_all_metrics_keys self :
  dict_keys (result evaluate_all_metrics self)
  = first_seen (map category (flagged_metrics (metrics self)))
  /\ NoDup (dict_keys (result evaluate_all_metrics self)).
Proof.
  split; [apply dict_keys_evaluate_all_metrics|
          apply NoDup_dict_keys_evaluate_all_metrics].
Qed.

Lemma dict_get_evaluate_all_metrics self k :
  dict_get k (result evaluate_all_metrics self)
  = match flagged_in k (metrics self) with
    | [] => None
    | g => Some g
    end.
Proof.
  apply (evaluate_all_metrics_ind
           (fun ms d => dict_get k d
                        = match flagged_in k ms with [] => None | g => Some g end));
    [reflexivity|].
  intros ms m d IH. rewrite flagged_in_snoc.
  destruct (is_flagged m); [|now rewrite app_nil_r].
  destruct (decide (category m = k)) as [<-|Hne].
  - rewrite dict_get_append_eq, IH.
    destruct (flagged_in (category m) ms); reflexivity.
  - rewrite dict_get_append_ne by exact Hne. now rewrite app_nil_r.
Qed.

(** Under each category the dictionary holds exactly the flagged metrics
    of that category, in store order; a category without flagged metric
    is not a key, and no group is empty. *)
Theorem evaluate_all_metrics_groups self :
  (forall k,
     dict_get k (result evaluate_all_metrics self)
     = match flagged_in k (metrics self) with
       | [] => None
       | g => Some g
       end)
  /\ Forall (fun kv => snd kv = flagged_in (fst kv) (metrics self) /\ snd kv <> [])
            (result evaluate_all_metrics self).
Proof.
  split; [apply dict_get_evaluate_all_metrics|].
  apply Forall_forall. intros [k g] Hin. cbn [fst snd].
  pose proof (dict_get_elem k g _ (NoDup_dict_keys_evaluate_all_metrics self) Hin)
    as Hget.
  rewrite dict_get_evaluate_all_metrics in Hget.
  destruct (flagged_in k (metrics self)) as [|x l]; [discriminate|].
  inversion Hget; subst. split; [reflexivity|discriminate].
Qed.

Lemma dict_size_evaluate_all_metrics self :
  dict_size (result evaluate_all_metrics self) = length (flagged_metrics (metrics self)).
Proof.
  apply (evaluate_all_metrics_ind
           (fun ms d => dict_size d = length (flagged_metrics ms))); [reflexivity|].
  intros ms m d IH. rewrite flagged_metrics_snoc, length_app.
  destruct (is_flagged m); cbn [length]; [|lia].
  rewrite dict_size_append, IH. lia.
Qed.

(** The count of flagged metrics is the number of metrics that the
    dictionary lists: the two queries agree; and it is at most the number
    of metrics stored. *)
Theorem total_flagged_count_is_dict_size self :
  result get_total_flagged_count self = dict_size (result evaluate_all_metrics self)
  /\ result get_total_flagged_count self = length (flagged_metrics (metrics self))
  /\ (result get_total_flagged_count self <= length (metrics self))%nat.
Proof.
  assert (Hcount : result get_total_flagged_count self
                   = length (flagged_metrics (metrics self))) by reflexivity.
  split; [|split; [exact Hcount|]].
  - now rewrite dict_size_evaluate_all_metrics.
  - rewrite Hcount. apply length_filter.
Qed.

End FlaggedByCategory.

(* ===================================================================== *)
(** ** Further properties: adding metrics, resetting, repeated reports    *)
(* ===================================================================== *)

Section StoreOperations.
Context {F : Type} `{Number F}.
Implicit Types (self : HealthLP F) (m : HealthMetric F) (ms : list (HealthMetric F)).

(** [add_metric] stores the metric it returns at the end of the list,
    with the fields it was given; the count of flagged metrics grows by
    one when the value is below the lower or above the upper threshold,
    and stays as it is otherwise; sleep history and target are untouched. *)
Theorem add_metric_counts self n (v lo up : F) cat :
  let m := result (add_metric n v lo up cat) self in
  let self' := after (add_metric n v lo up cat) self in
  metrics self' = metrics self ++ [m]
  /\ (name m = n /\ value m = v /\ lower_threshold m = lo /\ upper_threshold m = up
      /\ category m = cat)
  /\ result get_total_flagged_count self'
     = (result get_total_flagged_count self
        + (if nltb v lo || ngtb v up then 1 else 0))%nat
  /\ sleep_history self' = sleep_history self
  /\ target_sleep_hours self' = target_sleep_hours self.
Proof.
  intros m self'. subst self'. rewrite after_add_metric. fold m.
  split; [reflexivity|]. split; [repeat split|]. split; [|split; reflexivity].
  change (length (flagged_metrics (metrics self ++ [m]))
          = (length (flagged_metrics (metrics self))
             + (if nltb v lo || ngtb v up then 1 else 0))%nat).
  rewrite flagged_metrics_snoc, length_app.
  change (is_flagged m) with (nltb v lo || ngtb v up).
  now destruct (nltb v lo || ngtb v up).
Qed.

(** After [reset] the model holds no metric and no sleep record and keeps
    its target: no metric is flagged, the dictionary of flagged metrics
    is empty, the health score is 100.0 and the sleep debt of every
    period is 0.0. *)
Theorem reset_clears self :
  let self' := after reset self in
  metrics self' = [] /\ sleep_history self' = []
  /\ target_sleep_hours self' = target_sleep_hours self
  /\ result get_total_flagged_count self' = 0%nat
  /\ result evaluate_all_metrics self' = []
  /\ result optimize_health_score self' = lit 100.0
  /\ (forall start_date end_date,
        result (calculate_sleep_debt start_date end_date) self' = lit 0.0).
Proof. intros self'. subst self'. rewrite after_reset. repeat split. Qed.

Lemma length_upsert ms m :
  length (upsert ms m)
  = (length ms + (if decide (sleep_debt_metrics ms = []) then 1 else 0))%nat.
Proof.
  unfold sleep_debt_metrics. induction ms as [|x ms IH]; [reflexivity|].
  rewrite upsert_cons, filter_cons.
  destruct (decide (is_sleep_debt x)) as [Hx|Hx]; cbn [length].
  - rewrite decide_False by discriminate. lia.
  - rewrite IH. destruct (decide (filter is_sleep_debt ms = [])); lia.
Qed.

Lemma sleep_debt_metrics_upsert_ne ms m :
  is_sleep_debt m -> sleep_debt_metrics (upsert ms m) <> [].
Proof.
  intros Hm. unfold sleep_debt_metrics. induction ms as [|x ms IH].
  - rewrite upsert_nil, filter_cons, decide_True by exact Hm. discriminate.
  - rewrite upsert_cons. destruct (decide (is_sleep_debt x)) as [Hx|Hx].
    + rewrite filter_cons, decide_True by exact Hm. discriminate.
    + rewrite filter_cons, decide_False by exact Hx. exact IH.
Qed.

Lemma length_sleep_debt_metrics_upsert ms m :
  is_sleep_debt m ->
  length (sleep_debt_metrics (upsert ms m))
  = Nat.max 1 (length (sleep_debt_metrics ms)).
Proof.
  intros Hm. unfold sleep_debt_metrics. induction ms as [|x ms IH].
  - rewrite upsert_nil, filter_cons, decide_True by exact Hm. reflexivity.
  - rewrite upsert_cons. destruct (decide (is_sleep_debt x)) as [Hx|Hx].
    + rewrite !filter_cons, decide_True, (decide_True (P := is_sleep_debt x))
        by assumption.
      cbn [length]. lia.
    + rewrite !filter_cons, !decide_False by exact Hx. exact IH.
Qed.

Lemma exec_all_cons (c : Call F) (cs : list (Call F)) self :
  exec_all (c :: cs) self = exec_all cs (exec c self).
Proof. reflexivity. Qed.

Lemma metrics_exec_report_call (a : ReportArgs) self :
  metrics (exec (report_call a) self)
  = upsert (metrics self)
      (result (get_sleep_debt_metric (arg_period_start a) (arg_period_end a)
                                     default_max_acceptable_debt) self).
Proof. apply metrics_after_generate_report. Qed.

Lemma exec_report_calls_length (calls : list ReportArgs) self :
  sleep_debt_metrics (metrics self) <> [] ->
  length (metrics (exec_all (map report_call calls) self)) = length (metrics self)
  /\ length (sleep_debt_metrics (metrics (exec_all (map report_call calls) self)))
     = length (sleep_debt_metrics (metrics self)).
Proof.
  revert self. induction calls as [|a calls IH]; intros self Hne; [now split|].
  cbn [map]. rewrite exec_all_cons.
  set (m := result (get_sleep_debt_metric (arg_period_start a) (arg_period_end a)
                                          default_max_acceptable_debt) self).
  assert (Hm : is_sleep_debt m) by apply sleep_debt_metric_named.
  assert (H1 : metrics (exec (report_call a) self) = upsert (metrics self) m)
    by apply metrics_exec_report_call.
  destruct (IH (exec (report_call a) self)) as [Hlen Hsd].
  { rewrite H1. now apply sleep_debt_metrics_upsert_ne. }
  rewrite Hlen, Hsd, H1.
  rewrite length_upsert, decide_False by exact Hne.
  rewrite length_sleep_debt_metrics_upsert by exact Hm.
  split; [lia|].
  destruct (sleep_debt_metrics (metrics self)); [contradiction|cbn [length]; lia].
Qed.

(** Reports do not pile up "Sleep Debt" metrics.  One report lengthens
    the metric list by one when the list has no metric of that name and
    leaves its length alone otherwise; and whatever the model, after one
    report or more the list is at most one longer than before and has as
    many "Sleep Debt" metrics as before, or one if it had none. *)
Theorem reports_grow_store_once self (a : ReportArgs) (calls : list ReportArgs) :
  let self1 := exec (report_call a) self in
  let selfn := exec_all (map report_call (a :: calls)) self in
  length (metrics self1)
  = (length (metrics self)
     + (if decide (sleep_debt_metrics (metrics self) = []) then 1 else 0))%nat
  /\ length (metrics selfn) = length (metrics self1)
  /\ (length (metrics selfn) <= length (metrics self) + 1)%nat
  /\ length (sleep_debt_metrics (metrics selfn))
     = Nat.max 1 (length (sleep_debt_metrics (metrics self))).
Proof.
  intros self1 selfn.
  assert (Hn : selfn = exec_all (map report_call calls) self1) by reflexivity.
  set (m := result (get_sleep_debt_metric (arg_period_start a) (arg_period_end a)
                                          default_max_acceptable_debt) self).
  assert (Hm : is_sleep_debt m) by apply sleep_debt_metric_named.
  assert (H1 : metrics self1 = upsert (metrics self) m)
    by apply metrics_exec_report_call.
  assert (Hne : sleep_debt_metrics (metrics self1) <> [])
    by (rewrite H1; now apply sleep_debt_metrics_upsert_ne).
  destruct (exec_report_calls_length calls self1 Hne) as [Hlen Hsd].
  rewrite Hn, Hlen, Hsd, H1, length_upsert.
  rewrite length_sleep_debt_metrics_upsert by exact Hm.
  repeat split. destruct (decide _); lia.
Qed.

End StoreOperations.

(* ===================================================================== *)
(** ** Further properties: the sleep history                              *)
(* ===================================================================== *)

Section SleepHistory.
Context {F : Type} `{Number F}.
Implicit Types (self : HealthLP F) (x y r : SleepData F) (l : list (SleepData F)).

Lemma filter_all {A} (P : A -> Prop) `{forall a, Decision (P a)} (l : list A) :
  Forall P l -> filter P l = l.
Proof.
  induction 1 as [|a l Ha _ IH]; [reflexivity|].
  now rewrite filter_cons, decide_True, IH.
Qed.

Lemma filter_none {A} (P : A -> Prop) `{forall a, Decision (P a)} (l : list A) :
  Forall (fun a => ~ P a) l -> filter P l = [].
Proof.
  induction 1 as [|a l Ha _ IH]; [reflexivity|].
  now rewrite filter_cons, decide_False.
Qed.

Lemma insert_by_date_first x l :
  Forall (fun y => date x <= date y) l -> insert_by_date x l = x :: l.
Proof.
  intros Hl. destruct l as [|y l]; [reflexivity|]. cbn.
  apply Forall_cons in Hl as [Hy _].
  destruct (Z.leb_spec (date x) (date y)); [reflexivity|lia].
Qed.

Lemma sort_by_date_snoc l r :
  date_sorted l ->
  sort_by_date (l ++ [r]) = up_to (date r) l ++ [r] ++ later_than (date r) l.
Proof.
  unfold sort_by_date, date_sorted, up_to, later_than.
  rewrite fold_right_app. cbn [fold_right insert_by_date].
  induction 1 as [|a l Hl IH Ha]; [reflexivity|].
  cbn [fold_right]. rewrite IH, !filter_cons.
  destruct (decide (date a <= date r)) as [Hle|Hgt].
  - rewrite decide_False by lia. cbn [app].
    apply insert_by_date_first.
    rewrite Forall_app, Forall_cons. split; [|split].
    + apply Forall_forall. intros y [_ Hy]%list_elem_of_filter.
      rewrite Forall_forall in Ha. now apply Ha.
    + exact Hle.
    + apply Forall_forall. intros y [_ Hy]%list_elem_of_filter.
      rewrite Forall_forall in Ha. now apply Ha.
  - rewrite decide_True by lia.
    rewrite (filter_none (fun s => date s <= date r)), (filter_all (fun s => date r < date s)).
    + cbn. destruct (Z.leb_spec (date a) (date r)); [lia|].
      now rewrite insert_by_date_first.
    + eapply Forall_impl; [exact Ha|]. cbn. intros; lia.
    + eapply Forall_impl; [exact Ha|]. cbn. intros; lia.
Qed.

(** On a sorted history, [add_sleep_data] puts the new record behind
    every record dated up to its own date, those of the same date
    included, and in front of every later one; the records that were
    there keep their order. *)
Theorem add_sleep_data_position self d (dur q e : F) :
  date_sorted (sleep_history self) ->
  sleep_history (after (add_sleep_data d dur q e) self)
  = up_to d (sleep_history self)
    ++ [{| date := d; sleep_duration_hours := dur;
           sleep_quality_score := q; sleep_efficiency := e |}]
    ++ later_than d (sleep_history self).
Proof.
  intros Hs. rewrite after_add_sleep_data. cbn [sleep_history set_sleep_history].
  now rewrite sort_by_date_snoc.
Qed.

(** A period whose end precedes its start selects no record, and its
    sleep debt is the literal 0.0. *)
Theorem sleep_debt_inverted_period self (start_date end_date : datetime) :
  end_date < start_date ->
  in_period start_date end_date (sleep_history self) = []
  /\ result (calculate_sleep_debt start_date end_date) self = lit 0.0.
Proof.
  intros Hinv.
  assert (Hnil : in_period start_date end_date (sleep_history self) = []).
  { unfold in_period. apply filter_none, Forall_forall. intros; lia. }
  split; [exact Hnil|].
  rewrite result_calculate_sleep_debt, Hnil. reflexivity.
Qed.

Lemma date_sorted_split (d : datetime) l :
  date_sorted l -> up_to d l ++ later_than d l = l.
Proof.
  unfold date_sorted, up_to, later_than.
  induction 1 as [|a l Hl IH Ha]; [reflexivity|].
  rewrite !filter_cons.
  destruct (decide (date a <= d)) as [Hle|Hgt].
  - rewrite decide_False by lia. cbn [app]. now rewrite IH.
  - rewrite decide_True by lia.
    rewrite (filter_none (fun s => date s <= d)), (filter_all (fun s => d < date s)).
    + reflexivity.
    + eapply Forall_impl; [exact Ha|]. cbn. intros; lia.
    + eapply Forall_impl; [exact Ha|]. cbn. intros; lia.
Qed.

Lemma in_period_app (s e : datetime) l1 l2 :
  in_period s e (l1 ++ l2) = in_period s e l1 ++ in_period s e l2.
Proof. unfold in_period. apply filter_app. Qed.

(** Recording a night on a sorted history: the debt of a period that
    does not contain its date is as before; the debt of a period that
    contains its date and no later record is the debt before, taken
    through one more iteration of the loop. *)
Theorem add_sleep_data_debt self (d : datetime) (dur q eff : F) (s e : datetime) :
  date_sorted (sleep_history self) ->
  let r := {| date := d; sleep_duration_hours := dur;
              sleep_quality_score := q; sleep_efficiency := eff |} in
  let self' := after (add_sleep_data d dur q eff) self in
  (~ (s <= d <= e) ->
     result (calculate_sleep_debt s e) self' = result (calculate_sleep_debt s e) self)
  /\ (s <= d <= e ->
      in_period s e (later_than d (sleep_history self)) = [] ->
      result (calculate_sleep_debt s e) self'
      = debt_step (target_sleep_hours self)
                  (result (calculate_sleep_debt s e) self) r).
Proof.
  intros Hs r self'.
  assert (Hnew : sleep_history self'
                 = up_to d (sleep_history self) ++ [r] ++ later_than d (sleep_history self))
    by (subst self' r; rewrite after_add_sleep_data; cbn [sleep_history set_sleep_history];
        now rewrite sort_by_date_snoc).
  assert (Htarget : target_sleep_hours self' = target_sleep_hours self)
    by (subst self'; now rewrite after_add_sleep_data).
  assert (Hold : in_period s e (sleep_history self)
                 = in_period s e (up_to d (sleep_history self))
                   ++ in_period s e (later_than d (sleep_history self)))
    by (now rewrite <- in_period_app, date_sorted_split).
  rewrite !result_calculate_sleep_debt, Hnew, Htarget, !in_period_app, Hold.
  split.
  - intros Hout.
    assert (Hr : in_period s e [r] = []).
    { unfold in_period. rewrite filter_cons, decide_False by exact Hout. reflexivity. }
    now rewrite Hr.
  - intros Hin Hlater.
    assert (Hr : in_period s e [r] = [r]).
    { unfold in_period. rewrite filter_cons, decide_True by exact Hin. reflexivity. }
    rewrite Hr, Hlater, !app_nil_r, fold_left_app. reflexivity.
Qed.

Lemma in_period_cons (s e : datetime) (r : SleepData F) l :
  in_period s e (r :: l)
  = if decide (s <= date r <= e) then r :: in_period s e l else in_period s e l.
Proof. unfold in_period. now rewrite filter_cons. Qed.

Lemma in_period_adjacent (s k e : datetime) l :
  date_sorted l -> s - 1 <= k <= e ->
  in_period s e l = in_period s k l ++ in_period (k + 1) e l.
Proof.
  intros Hl Hk. induction Hl as [|a l Hl IH Ha]; [reflexivity|].
  rewrite !in_period_cons.
  destruct (decide (s <= date a <= k)) as [H1|H1].
  - rewrite decide_True, decide_False by lia. cbn [app]. now rewrite IH.
  - destruct (decide (k + 1 <= date a <= e)) as [H2|H2].
    + rewrite decide_True by lia.
      assert (Hnone : in_period s k l = []).
      { unfold in_period. apply filter_none.
        eapply Forall_impl; [exact Ha|]. cbn. intros; lia. }
      rewrite IH, Hnone. reflexivity.
    + rewrite decide_False by lia. exact IH.
Qed.

(** Where two periods meet no record is counted twice or lost: on a
    sorted history, the records of a period are those of its first part
    followed by those of the rest, and its debt is the debt of the
    first part taken through the loop over the rest. *)
Theorem sleep_debt_adjacent_periods self (start_date split end_date : datetime) :
  date_sorted (sleep_history self) ->
  start_date - 1 <= split <= end_date ->
  in_period start_date end_date (sleep_history self)
  = in_period start_date split (sleep_history self)
    ++ in_period (split + 1) end_date (sleep_history self)
  /\ result (calculate_sleep_debt start_date end_date) self
     = fold_left (debt_step (target_sleep_hours self))
                 (in_period (split + 1) end_date (sleep_history self))
                 (result (calculate_sleep_debt start_date split) self).
Proof.
  intros Hs Hk.
  pose proof (in_period_adjacent start_date split end_date _ Hs Hk) as Hsplit.
  split; [exact Hsplit|].
  rewrite !result_calculate_sleep_debt.
  change (filter (fun s => start_date <= date s <= end_date) (sleep_history self))
    with (in_period start_date end_date (sleep_history self)).
  rewrite Hsplit, fold_left_app. reflexivity.
Qed.

End SleepHistory.

(* ===================================================================== *)
(** ** Further properties: values that are not numbers                    *)
(* ===================================================================== *)

(** What [add_metric] returns. *)
Lemma result_add_metric {F : Type} `{Number F} (self : HealthLP F) n (v lo up : F) cat :
  result (add_metric n v lo up cat) self
  = {| name := n; value := v; lower_threshold := lo; upper_threshold := up;
       category := cat; is_flagged := nltb v lo || nltb up v |}.
Proof. reflexivity. Qed.

Section NotANumber.
Local Open Scope float_scope.
Implicit Types (self : HealthLP float) (x y : float).

Lemma nan_ltb_l x : (nan <? x) = false.
Proof. rewrite ltb_spec. reflexivity. Qed.

Lemma nan_ltb_r x : (x <? nan) = false.
Proof.
  rewrite ltb_spec. change (Prim2SF nan) with S754_nan.
  unfold SFltb. now destruct (Prim2SF x).
Qed.

Lemma Prim2SF_nan_normalized (lo up : float) :
  Prim2SF ((nan - lo) / (up - lo)) = S754_nan.
Proof. rewrite div_spec, sub_spec. reflexivity. Qed.

Lemma nan_normalized_ltb_l (lo up x : float) : ((nan - lo) / (up - lo) <? x) = false.
Proof. rewrite ltb_spec, Prim2SF_nan_normalized. reflexivity. Qed.

(** A metric whose value is NaN is never flagged, whatever its
    thresholds; on a range with [upper > lower] it scores 1.0, the score
    of a metric at its upper threshold, and 1.0 on any other range too. *)
Theorem nan_value_scores_one self n (lo up : float) cat :
  let m := result (add_metric n nan lo up cat) self in
  is_flagged m = false /\ metric_score m = 1.
Proof.
  intros m. subst m. rewrite result_add_metric.
  unfold metric_score, clamped_normalized, py_max, py_min, ngtb.
  cbn [is_flagged value lower_threshold upper_threshold nltb nsub ndiv float_Number].
  rewrite nan_ltb_l, nan_ltb_r. cbn [orb negb]. split; [reflexivity|].
  destruct (lo <? up); [|reflexivity].
  rewrite nan_normalized_ltb_l. reflexivity.
Qed.

End NotANumber.

(* ===================================================================== *)
(** ** Further properties: inverted thresholds                            *)
(* ===================================================================== *)

Section InvertedThresholds.
Local Open Scope float_scope.
Implicit Types (self : HealthLP float).

(** A value that is a number is below the lower threshold or above the
    upper one when the thresholds are inverted. *)
Lemma inverted_out_of_range (v lo up : float) :
  (up <? lo) = true -> (v =? v) = true -> (v <? lo) || (up <? v) = true.
Proof.
  rewrite !ltb_spec, FloatAxioms.eqb_spec. intros Hinv Hv.
  destruct (SFltb_not_nan _ _ Hinv) as [Nup Nlo].
  assert (Nv : SFnan (Prim2SF v) = false) by (destruct (Prim2SF v); easy).
  destruct (SFltb (Prim2SF v) (Prim2SF lo)) eqn:H1; [reflexivity|].
  destruct (SFltb (Prim2SF up) (Prim2SF v)) eqn:H2; [reflexivity|]. exfalso.
  apply SFltb_false_leb in H1, H2; auto.
  pose proof (SFleb_trans _ _ _ (Prim2SF_valid lo) (Prim2SF_valid v) (Prim2SF_valid up) H1 H2)
    as Hle.
  apply SFltb_leb_false in Hinv. congruence.
Qed.

(** With the thresholds inverted, every value that is a number is
    flagged and scores 0.5. *)
Theorem inverted_thresholds_flag_all self n (v lo up : float) cat :
  (up <? lo) = true -> (v =? v) = true ->
  let m := result (add_metric n v lo up cat) self in
  is_flagged m = true /\ metric_score m = 0.5.
Proof.
  intros Hinv Hv m. subst m. rewrite result_add_metric.
  assert (Hflag : nltb v lo || nltb up v = true) by now apply inverted_out_of_range.
  assert (Hrange : ngtb up lo = false).
  { change ((lo <? up) = false). rewrite ltb_spec in *.
    destruct (SFltb_not_nan _ _ Hinv) as [Nup Nlo].
    apply SFltb_leb_false in Hinv.
    destruct (SFltb (Prim2SF lo) (Prim2SF up)) eqn:E; [|reflexivity].
    unfold SFltb, SFleb in *. destruct (SFcompare _ _) as [[| |]|]; easy. }
  split; [exact Hflag|].
  rewrite metric_score_degenerate by exact Hrange.
  cbn [is_flagged]. now rewrite Hflag.
Qed.

End InvertedThresholds.

(* ===================================================================== *)
(** ** Further properties: the report                                     *)
(* ===================================================================== *)

Section ReportContents.
Context {F : Type} `{Number F}.
Implicit Types (self : HealthLP F) (m : HealthMetric F) (ms : list (HealthMetric F)).

Lemma result_build_report self pe rd ps pend rs re n m :
  result (build_report pe rd ps pend rs re n m) self
  = {| patient_email := pe;
       report_date := rd;
       period := {| p_start := ps; p_end := pend; p_days := n |};
       reference_period :=
         match rs, re with
         | Some s, Some e =>
             Some {| p_start := s; p_end := e; p_days := timedelta_days e s + 1 |}
         | _, _ => None
         end;
       total_flagged := result get_total_flagged_count self;
       flagged_by_category := result evaluate_all_metrics self;
       health_score := result optimize_health_score self;
       sleep_debt := {| sd_value := value m; sd_is_flagged := is_flagged m;
                        sd_target := target_sleep_hours self |} |}.
Proof. unfold build_report. now autorewrite with model. Qed.

Lemma result_generate_report self pe rd ps pend rs re :
  result (generate_report pe rd ps pend rs re) self
  = result (build_report pe rd ps pend rs re (timedelta_days pend ps + 1)
              (result (get_sleep_debt_metric ps pend default_max_acceptable_debt) self))
           (after (generate_report pe rd ps pend rs re) self).
Proof.
  rewrite after_generate_report. unfold result at 1.
  now rewrite generate_report_steps.
Qed.

Lemma elem_of_upsert ms m : m ∈ upsert ms m.
Proof.
  induction ms as [|x ms IH]; [rewrite upsert_nil; apply list_elem_of_here|].
  rewrite upsert_cons. destruct (decide (is_sleep_debt x)).
  - apply list_elem_of_here.
  - now apply list_elem_of_further.
Qed.

(** The report describes the model as the call leaves it: its count of
    flagged metrics, its dictionary of flagged metrics and its health
    score are what the three queries return afterwards, the sleep debt is
    that of the report period, and the count is the number of metrics the
    dictionary lists. *)
Theorem report_is_snapshot self pe rd ps pend rs re :
  let r := result (generate_report pe rd ps pend rs re) self in
  let self' := after (generate_report pe rd ps pend rs re) self in
  total_flagged r = result get_total_flagged_count self'
  /\ flagged_by_category r = result evaluate_all_metrics self'
  /\ health_score r = result optimize_health_score self'
  /\ sd_value (sleep_debt r) = result (calculate_sleep_debt ps pend) self'
  /\ sd_target (sleep_debt r) = target_sleep_hours self'
  /\ total_flagged r = dict_size (flagged_by_category r)
  /\ (patient_email r = pe /\ report_date r = rd
      /\ p_start (period r) = ps /\ p_end (period r) = pend).
Proof.
  intros r self'. subst r. rewrite result_generate_report, result_build_report.
  fold self'. cbn [total_flagged flagged_by_category health_score sleep_debt
                   sd_value sd_target patient_email report_date period p_start p_end].
  split; [reflexivity|]. split; [reflexivity|]. split; [reflexivity|].
  split; [subst self'; now rewrite after_generate_report|].
  split; [reflexivity|].
  split; [|repeat split].
  now rewrite dict_size_evaluate_all_metrics.
Qed.

(** When the report says that the sleep debt is flagged, the count of
    flagged metrics is at least one and the "Sleep" group of the
    dictionary lists the sleep-debt metric of the period. *)
Theorem flagged_sleep_debt_is_listed self pe rd ps pend rs re :
  let r := result (generate_report pe rd ps pend rs re) self in
  let m := result (get_sleep_debt_metric ps pend default_max_acceptable_debt) self in
  sd_is_flagged (sleep_debt r) = true ->
  (1 <= total_flagged r)%nat
  /\ exists g, dict_get "Sleep" (flagged_by_category r) = Some g /\ m ∈ g.
Proof.
  intros r m Hflag. subst r.
  rewrite result_generate_report, result_build_report in *.
  cbn [total_flagged flagged_by_category sleep_debt sd_is_flagged] in *. fold m in Hflag.
  set (self' := after (generate_report pe rd ps pend rs re) self).
  assert (Hin : m ∈ flagged_in "Sleep" (metrics self')).
  { unfold flagged_in. apply list_elem_of_filter. split; [split; [exact Hflag|reflexivity]|].
    subst self'. rewrite metrics_after_generate_report. apply elem_of_upsert. }
  split.
  - change (1 <= length (flagged_metrics (metrics self')))%nat.
    assert (Hin' : m ∈ flagged_metrics (metrics self')).
    { unfold flagged_metrics. apply list_elem_of_filter.
      apply list_elem_of_filter in Hin. tauto. }
    destruct (flagged_metrics (metrics self')); [now apply elem_of_nil in Hin'|cbn; lia].
  - rewrite dict_get_evaluate_all_metrics.
    destruct (flagged_in "Sleep" (metrics self')) as [|x g] eqn:Hg;
      [now apply elem_of_nil in Hin|].
    exists (x :: g). split; [reflexivity|exact Hin].
Qed.

Lemma timedelta_days_floor (a n t : Z) :
  0 <= t < MICROSECONDS_PER_DAY -> timedelta_days (a + timedelta n + t) a = n.
Proof.
  intros Ht. unfold timedelta_days, timedelta.
  replace (a + n * MICROSECONDS_PER_DAY + t - a) with (n * MICROSECONDS_PER_DAY + t) by lia.
  rewrite Z.div_add_l by (unfold MICROSECONDS_PER_DAY; lia).
  rewrite Z.div_small by exact Ht. lia.
Qed.

(** The day count of the report is the number of whole days between the
    two dates plus one: [n + 1] when the period ends [n] days and less
    than a day after it starts, so 1 when both dates are the same and 0
    or less when the period ends a day or more before it starts.  The
    reference period is in the report when both reference dates are
    given, counted the same way, and absent otherwise. *)
Theorem report_day_counts self pe rd ps rs re (n t : Z) :
  0 <= t < MICROSECONDS_PER_DAY ->
  let r := result (generate_report pe rd ps (ps + timedelta n + t) rs re) self in
  p_days (period r) = n + 1
  /\ (n < 0 -> p_days (period r) <= 0)
  /\ reference_period r
     = match rs, re with
       | Some s, Some e =>
           Some {| p_start := s; p_end := e; p_days := timedelta_days e s + 1 |}
       | _, _ => None
       end.
Proof.
  intros Ht r. subst r. rewrite result_generate_report, result_build_report.
  cbn [period p_days reference_period].
  rewrite timedelta_days_floor by exact Ht.
  split; [reflexivity|]. split; [lia|reflexivity].
Qed.

End ReportContents.

Lemma optimize_health_score_metrics {F : Type} `{Number F} (self self' : HealthLP F) :
  metrics self = metrics self' ->
  result optimize_health_score self = result optimize_health_score self'.
Proof.
  intros Hms. unfold optimize_health_score.
  rewrite !result_bind, !result_gets, !after_gets, Hms.
  destruct (metrics self') as [|m ms]; [reflexivity|].
  destruct (fold_left score_step (m :: ms) (lit 0.0, lit 0.0)) as [ts tw].
  destruct (neqb tw (lit 0)); reflexivity.
Qed.

(** Recording a night changes nothing that depends on the metrics alone:
    the metric list, the count and the dictionary of flagged metrics and
    the health score are as before, and so is the target.  The night
    enters the score only through the "Sleep Debt" metric of a later
    report. *)
Theorem add_sleep_data_keeps_metrics {F : Type} `{Number F}
    (self : HealthLP F) d (dur q e : F) :
  let self' := after (add_sleep_data d dur q e) self in
  metrics self' = metrics self
  /\ target_sleep_hours self' = target_sleep_hours self
  /\ result get_total_flagged_count self' = result get_total_flagged_count self
  /\ result evaluate_all_metrics self' = result evaluate_all_metrics self
  /\ result optimize_health_score self' = result optimize_health_score self
  /\ length (sleep_history self') = S (length (sleep_history self)).
Proof.
  intros self'. subst self'. rewrite after_add_sleep_data.
  split; [reflexivity|]. split; [reflexivity|]. split; [reflexivity|].
  split; [reflexivity|]. split; [now apply optimize_health_score_metrics|].
  cbn [sleep_history set_sleep_history].
  rewrite sort_by_date_perm, length_app. cbn. lia.
Qed.

(* ===================================================================== *)
(** ** The further properties on concrete models                          *)
(* ===================================================================== *)

Section FurtherInstances.

(** A second night on the date of the first goes behind it. *)
Lemma add_sleep_data_position_same_date :
  let self : HealthLP float := one_hour_short in
  let r := {| date := timedelta 0; sleep_duration_hours := lit 6.0;
              sleep_quality_score := lit 70.0; sleep_efficiency := lit 85.0 |} in
  date_sorted (sleep_history self)
  /\ sleep_history (after (add_sleep_data (timedelta 0) (lit 6.0) (lit 70.0) (lit 85.0))
                          self)
     = sleep_history self ++ [r].
Proof.
  intros self r.
  assert (Hs : date_sorted (sleep_history self)) by (repeat constructor).
  split; [exact Hs|].
  rewrite (add_sleep_data_position self (timedelta 0) (lit 6.0) (lit 70.0) (lit 85.0) Hs).
  reflexivity.
Defined.

(** The week read backwards has no debt. *)
Lemma sleep_debt_inverted_week :
  let self : HealthLP float := week_of_short_nights in
  timedelta 0 < timedelta 6
  /\ result (calculate_sleep_debt (timedelta 6) (timedelta 0)) self = lit 0.0.
Proof.
  intros self.
  assert (Hlt : timedelta 0 < timedelta 6) by reflexivity.
  split; [exact Hlt|].
  exact (proj2 (sleep_debt_inverted_period self (timedelta 6) (timedelta 0) Hlt)).
Defined.

(** The week is its first three days, then its last four. *)
Lemma sleep_debt_week_in_two :
  let self : HealthLP float := week_of_short_nights in
  date_sorted (sleep_history self)
  /\ timedelta 0 - 1 <= timedelta 2 <= timedelta 6
  /\ result (calculate_sleep_debt (timedelta 0) (timedelta 6)) self
     = fold_left (debt_step (target_sleep_hours self))
                 (in_period (timedelta 2 + 1) (timedelta 6) (sleep_history self))
                 (result (calculate_sleep_debt (timedelta 0) (timedelta 2)) self).
Proof.
  intros self.
  assert (Hs : date_sorted (sleep_history self))
    by (repeat first [constructor | (vm_compute; discriminate)]).
  assert (Hk : timedelta 0 - 1 <= timedelta 2 <= timedelta 6)
    by (unfold timedelta, MICROSECONDS_PER_DAY; lia).
  split; [exact Hs|]. split; [exact Hk|].
  exact (proj2 (sleep_debt_adjacent_periods self (timedelta 0) (timedelta 2) (timedelta 6)
                  Hs Hk)).
Defined.

(** A second night of seven hours, the day after the first: two hours of
    debt over the two days. *)
Lemma add_sleep_data_debt_second_night :
  let self : HealthLP float := one_hour_short in
  date_sorted (sleep_history self)
  /\ result (calculate_sleep_debt (timedelta 0) (timedelta 1))
            (after (add_sleep_data (timedelta 1) (lit 7.0) (lit 70.0) (lit 85.0)) self)
     = 2%float.
Proof.
  intros self.
  assert (Hs : date_sorted (sleep_history self)) by (repeat constructor).
  split; [exact Hs|].
  destruct (add_sleep_data_debt self (timedelta 1) (lit 7.0) (lit 70.0) (lit 85.0)
              (timedelta 0) (timedelta 1) Hs) as [_ Hin].
  rewrite Hin; [reflexivity| |reflexivity].
  unfold timedelta, MICROSECONDS_PER_DAY; lia.
Defined.

(** The thresholds of the heart rate swapped: 72 against [100, 60] is
    flagged and scores 0.5. *)
Lemma inverted_thresholds_heart_rate :
  let m : HealthMetric float :=
    result (add_metric "Resting Heart Rate" 72%float 100%float 60%float "Cardiovascular")
           (HealthLP_init 8%float) in
  is_flagged m = true /\ metric_score m = 0.5%float.
Proof.
  intros m.
  exact (inverted_thresholds_flag_all (HealthLP_init 8%float) "Resting Heart Rate"
           72%float 100%float 60%float "Cardiovascular" eq_refl eq_refl).
Defined.

(** Three days of the week owe no more than the whole week. *)
Lemma sleep_debt_monotone_week :
  let self : HealthLP float := week_of_short_nights in
  (result (calculate_sleep_debt (timedelta 2) (timedelta 4)) self
   <=? result (calculate_sleep_debt (timedelta 0) (timedelta 6)) self)%float = true.
Proof.
  intros self.
  apply (sleep_debt_monotone self (timedelta 2) (timedelta 4) (timedelta 0) (timedelta 6));
    unfold timedelta, MICROSECONDS_PER_DAY; lia.
Defined.

(** The step count of [main.py], against [10000, 20000]: the divisor of
    the normalization is 10000. *)
Lemma normalized_divisor_steps :
  let m : HealthMetric float := steps_metric in
  ngtb (upper_threshold m) (lower_threshold m) = true
  /\ (0 <? upper_threshold m - lower_threshold m)%float = true
  /\ (upper_threshold m - lower_threshold m =? 0)%float = false.
Proof.
  intros m.
  assert (Hrange : ngtb (upper_threshold m) (lower_threshold m) = true) by reflexivity.
  split; [exact Hrange|].
  exact (normalized_divisor_not_zero m Hrange).
Defined.

(** The report on the week of short nights lists the flagged debt. *)
Lemma flagged_sleep_debt_week :
  let self : HealthLP float := week_of_short_nights in
  let r := result sample_report self in
  sd_is_flagged (sleep_debt r) = true /\ (1 <= total_flagged r)%nat.
Proof.
  intros self r.
  assert (Hflag : sd_is_flagged (sleep_debt r) = true) by reflexivity.
  split; [exact Hflag|].
  exact (proj1 (flagged_sleep_debt_is_listed self "example@email.com" (timedelta 16)
                  (timedelta 0) (timedelta 6) None None Hflag)).
Defined.

(** The report of [main.py] covers seven days. *)
Lemma report_day_counts_week :
  let self : HealthLP float := week_of_short_nights in
  p_days (period (result sample_report self)) = 7.
Proof.
  intros self.
  assert (Ht : 0 <= 0 < MICROSECONDS_PER_DAY) by (unfold MICROSECONDS_PER_DAY; lia).
  exact (proj1 (report_day_counts self "example@email.com" (timedelta 16) (timedelta 0)
                  None None 6 0 Ht)).
Defined.

End FurtherInstances.
